(** * repo-analyzer: the snapshot file server ([containers/repo-analyzer/server.py])

    A shallow embedding of the Flask handlers [clone_repo], [list_files],
    [get_file] and [analyze_files], of the [str] and [os.path] functions they
    call, and of the file system and the two external commands ([rm], [git])
    they act on.

    - A Python [str] holding a path, a URL or a message is a [string], its
      characters being code points below 256; the text read from a file is
      the list of its code points.
    - Request fields are the values the handlers expect: strings (absent
      ones are [None]), a list of strings, an integer.
    - The file system is a tree of directories and regular files without
      symbolic links; a handler that changes it takes the tree and returns
      the new one.
    - What [rm] and [git] meet outside the process is an [env]: whether [rm]
      fails and what it leaves then, what a clone of a URL brings, how long
      it takes, and what a [git] that is killed has written by then.  The
      URL handed to [git] is taken to be a URL or a path, not an option.
    - A file is read whole without running out of memory; whether a read of
      a requested size above the reader's chunk gets its buffer is a
      parameter, [fits]. *)

From Stdlib Require Import List String Ascii Bool Arith NArith ZArith Lia.
From Stdlib Require Import Strings.Byte Numbers.DecimalString.
Import ListNotations.
Open Scope string_scope.

(** ** Python [str] methods used by the server *)

Module PyStr.

(** [s.startswith(p)] *)
Definition startswith (s p : string) : bool := String.prefix p s.

(** [s.endswith("/")], the only use of [endswith] in [posixpath.join] *)
Fixpoint endswith_char (s : string) (c : ascii) : bool :=
  match s with
  | EmptyString => false
  | String a EmptyString => Ascii.eqb a c
  | String _ rest => endswith_char rest c
  end.

(** [sub in s] *)
Fixpoint contains (sub s : string) : bool :=
  String.prefix sub s ||
  match s with
  | EmptyString => false
  | String _ rest => contains sub rest
  end.

(** [s.split(sep)] for a one-character separator: never empty, and
    [[""]] for the empty string. *)
Fixpoint split (sep : ascii) (s : string) : list string :=
  match s with
  | EmptyString => [EmptyString]
  | String c rest =>
      if Ascii.eqb c sep then EmptyString :: split sep rest
      else match split sep rest with
           | [] => [String c EmptyString]
           | seg :: segs => String c seg :: segs
           end
  end.

(** [sep.join(parts)] *)
Fixpoint join (sep : string) (parts : list string) : string :=
  match parts with
  | [] => EmptyString
  | [p] => p
  | p :: rest => p ++ sep ++ join sep rest
  end.

(** [s.replace(old, new)] for non-empty [old]: a left-to-right scan that
    replaces each occurrence found and resumes after it.  [skip] counts the
    characters of the current occurrence still to be passed over. *)
Fixpoint replace_scan (old new : string) (skip : nat) (s : string) : string :=
  match s with
  | EmptyString => EmptyString
  | String c rest =>
      match skip with
      | S k => replace_scan old new k rest
      | O =>
          if String.prefix old s
          then new ++ replace_scan old new (String.length old - 1) rest
          else String c (replace_scan old new 0 rest)
      end
  end.

Definition replace (s old new : string) : string := replace_scan old new 0 s.

(** truthiness of an optional string: [None] and the empty string are
    falsy *)
Definition truthy (o : option string) : bool :=
  match o with
  | Some (String _ _) => true
  | _ => false
  end.

(** the line feed *)
Definition nl : string := String "010" "".

(** [c in s] for a character *)
Fixpoint occurs (c : ascii) (s : string) : bool :=
  match s with
  | EmptyString => false
  | String a rest => (Ascii.eqb a c || occurs c rest)%bool
  end.

Definition hex_digit (n : N) : string :=
  match String.get (N.to_nat n) "0123456789abcdef" with
  | Some c => String c ""
  | None => "0"
  end.

(** [str.isprintable] of a character below 256 *)
Definition printable (c : ascii) : bool :=
  let n := N_of_ascii c in
  ((32 <=? n) && (n <? 127) || (161 <=? n) && negb (n =? 173))%N%bool.

(** one character of [repr(s)] *)
Definition escape (quote c : ascii) : string :=
  if (Ascii.eqb c quote || Ascii.eqb c "\"%char)%bool then String "\" (String c "")
  else if Ascii.eqb c "009"%char then "\t"
  else if Ascii.eqb c "010"%char then "\n"
  else if Ascii.eqb c "013"%char then "\r"
  else if printable c then String c ""
  else "\x" ++ hex_digit (N_of_ascii c / 16) ++ hex_digit (N_of_ascii c mod 16).

Fixpoint escape_all (quote : ascii) (s : string) : string :=
  match s with
  | EmptyString => EmptyString
  | String c rest => escape quote c ++ escape_all quote rest
  end.

(** [repr(s)]: in single quotes, unless [s] has a single quote and no
    double quote *)
Definition repr (s : string) : string :=
  let quote := (if (occurs "'" s && negb (occurs "034" s))%bool then "034" else "'")%char in
  String quote (escape_all quote s ++ String quote "").

(** [str(l)] of a list of strings *)
Definition repr_list (l : list string) : string :=
  "[" ++ join ", " (map repr l) ++ "]".

End PyStr.

(** ** [posixpath] *)

Module OsPath.
Import PyStr.

Definition sep : ascii := "/"%char.

Definition isabs (p : string) : bool := startswith p "/".

(** [os.path.join(a, b)] *)
Definition join (a b : string) : string :=
  if startswith b "/" then b
  else if (String.eqb a "" || endswith_char a sep)%bool then a ++ b
  else a ++ "/" ++ b.

(** [os.path.join(a, *p)] *)
Definition join_all (a : string) (p : list string) : string :=
  fold_left join p a.

Definition initial_slashes (path : string) : nat :=
  if startswith path "/" then
    if (startswith path "//" && negb (startswith path "///"))%bool then 2 else 1
  else 0.

(** One turn of the loop of [normpath]; [new_comps] is kept in order, the
    last component at the end. *)
Definition norm_step (slashes : nat) (new_comps : list string) (comp : string)
  : list string :=
  if (String.eqb comp "" || String.eqb comp ".")%bool then new_comps
  else if (negb (String.eqb comp "..")
           || (Nat.eqb slashes 0 && Nat.eqb (List.length new_comps) 0)
           || (negb (Nat.eqb (List.length new_comps) 0)
               && String.eqb (last new_comps "") ".."))%bool
       then (new_comps ++ [comp])%list
       else removelast new_comps.

Fixpoint repeat_sep (n : nat) : string :=
  match n with
  | O => EmptyString
  | S k => String sep (repeat_sep k)
  end.

(** the component list [normpath] builds *)
Definition norm_comps (path : string) : list string :=
  fold_left (norm_step (initial_slashes path)) (split sep path) [].

Definition normpath (path : string) : string :=
  if String.eqb path "" then "."
  else
    let p := repeat_sep (initial_slashes path) ++ PyStr.join "/" (norm_comps path) in
    if String.eqb p "" then "." else p.

(** [os.path.abspath]; [cwd] is the working directory of the process. *)
Definition abspath (cwd path : string) : string :=
  normpath (if isabs path then path else join cwd path).

(** [os.path.commonprefix] of two lists: [min] and [max] of a pair are the
    two lists themselves, so the result is their longest common prefix. *)
Fixpoint commonprefix (a b : list string) : list string :=
  match a, b with
  | x :: a', y :: b' => if String.eqb x y then x :: commonprefix a' b' else []
  | _, _ => []
  end.

Definition nonempty (s : string) : bool := negb (String.eqb s "").

(** [os.path.relpath(path, start)] for a non-empty [path]. *)
Definition relpath (cwd path start : string) : string :=
  let start_list := filter nonempty (split sep (abspath cwd start)) in
  let path_list := filter nonempty (split sep (abspath cwd path)) in
  let i := List.length (commonprefix start_list path_list) in
  let rel_list := (repeat ".." (List.length start_list - i) ++ skipn i path_list)%list in
  match rel_list with
  | [] => "."
  | first :: others => join_all first others
  end.

End OsPath.

(** ** The file system

    A tree of directories and regular files.  Directory entries are kept in
    the order [os.scandir] reports them.  There are no symbolic links, so a
    path names the one node the kernel reaches by walking its components. *)

Module FS.

#[local] Set Warnings "-register-all".

Inductive node : Type :=
| File (open_error : option string) (data : list byte)
| Dir (entries : list (string * node)).

(** induction on a tree, with the property known of every child *)
Fixpoint node_induction (P : node -> Prop)
    (HF : forall err data, P (File err data))
    (HD : forall es, Forall (fun e => P (snd e)) es -> P (Dir es))
    (n : node) : P n :=
  match n with
  | File err data => HF err data
  | Dir es =>
      HD es
        ((fix children (l : list (string * node)) : Forall (fun e => P (snd e)) l :=
            match l with
            | [] => Forall_nil _
            | e :: rest =>
                Forall_cons e
                  (match e return P (snd e) with
                   | (_, child) => node_induction P HF HD child
                   end)
                  (children rest)
            end) es)
  end.

(** a canonical location: the names from the root directory down *)
Definition loc := list string.

Fixpoint lookup_entry (name : string) (es : list (string * node)) : option node :=
  match es with
  | [] => None
  | (k, v) :: rest => if String.eqb k name then Some v else lookup_entry name rest
  end.

Fixpoint get (fs : node) (l : loc) : option node :=
  match l with
  | [] => Some fs
  | name :: l' =>
      match fs with
      | Dir es =>
          match lookup_entry name es with
          | Some child => get child l'
          | None => None
          end
      | File _ _ => None
      end
  end.

Definition is_dir_at (fs : node) (l : loc) : bool :=
  match get fs l with
  | Some (Dir _) => true
  | _ => false
  end.

(** what is at a location: a directory ([Some true]), a file, or nothing *)
Definition kind_at (fs : node) (l : loc) : option bool :=
  match get fs l with
  | Some (Dir _) => Some true
  | Some (File _ _) => Some false
  | None => None
  end.

(** [fs'] has everything [fs] has, as the same kind of node *)
Definition preserves (fs fs' : node) : Prop :=
  forall l, get fs l <> None -> kind_at fs' l = kind_at fs l.

Definition special (comp : string) : bool :=
  (String.eqb comp "" || String.eqb comp ".")%bool.

(** One component of a path walk, as the kernel does it: the place reached
    so far must be a directory; an empty component and [.] stay, [..] goes
    to the parent (the root is its own parent), a name must exist. *)
Definition walk_step (fs : node) (cur : option loc) (comp : string) : option loc :=
  match cur with
  | None => None
  | Some l =>
      if is_dir_at fs l then
        if special comp then Some l
        else if String.eqb comp ".." then Some (removelast l)
        else match get fs (l ++ [comp])%list with
             | Some _ => Some (l ++ [comp])%list
             | None => None
             end
      else None
  end.

(** Where an absolute path leads, if anywhere.  The server only builds
    absolute paths (below [REPO_DIR = "/repos"]). *)
Definition resolve (fs : node) (path : string) : option loc :=
  if OsPath.isabs path
  then fold_left (walk_step fs) (PyStr.split OsPath.sep path) (Some [])
  else None.

Definition node_at (fs : node) (path : string) : option node :=
  match resolve fs path with
  | Some l => get fs l
  | None => None
  end.

(** [os.path.exists], [os.path.isfile] *)
Definition path_exists (fs : node) (path : string) : bool :=
  match node_at fs path with
  | Some _ => true
  | None => false
  end.

Definition isfile (fs : node) (path : string) : bool :=
  match node_at fs path with
  | Some (File _ _) => true
  | _ => false
  end.

Fixpoint set_entry (name : string) (n : node) (es : list (string * node))
  : list (string * node) :=
  match es with
  | [] => [(name, n)]
  | (k, v) :: rest =>
      if String.eqb k name then (k, n) :: rest else (k, v) :: set_entry name n rest
  end.

Definition remove_entry (name : string) (es : list (string * node))
  : list (string * node) :=
  filter (fun e => negb (String.eqb (fst e) name)) es.

(** put [n] at location [l], whose parent directory must exist *)
Fixpoint set_at (l : loc) (n : node) (fs : node) : node :=
  match l with
  | [] => n
  | name :: l' =>
      match fs with
      | Dir es =>
          match lookup_entry name es with
          | Some child => Dir (set_entry name (set_at l' n child) es)
          | None =>
              match l' with
              | [] => Dir (set_entry name n es)
              | _ :: _ => fs
              end
          end
      | File _ _ => fs
      end
  end.

(** delete the subtree at [l]; the root itself is never deleted *)
Fixpoint remove_at (l : loc) (fs : node) : node :=
  match l with
  | [] => fs
  | name :: l' =>
      match fs with
      | Dir es =>
          match l' with
          | [] => Dir (remove_entry name es)
          | _ :: _ =>
              match lookup_entry name es with
              | Some child => Dir (set_entry name (remove_at l' child) es)
              | None => fs
              end
          end
      | File _ _ => fs
      end
  end.

(** One component of the walk that creates the directories still missing,
    as [git clone] prepares the way to its destination: the file system so
    far, and the place reached, if every component met was a directory. *)
Definition mkdir_step (st : node * option loc) (comp : string)
  : node * option loc :=
  match st with
  | (fs, None) => (fs, None)
  | (fs, Some l) =>
      if is_dir_at fs l then
        if special comp then (fs, Some l)
        else if String.eqb comp ".." then (fs, Some (removelast l))
        else match get fs (l ++ [comp])%list with
             | Some _ => (fs, Some (l ++ [comp])%list)
             | None => (set_at (l ++ [comp])%list (Dir []) fs, Some (l ++ [comp])%list)
             end
      else (fs, None)
  end.

(** the walk from the root directory; what it has created stays when a
    later component stops it *)
Definition mkdirs (fs : node) (comps : list string) : node * option loc :=
  fold_left mkdir_step comps (fs, Some []).

End FS.

(** ** The external commands

    [subprocess.run] starts [rm] and [git].  What they meet outside the
    process (permissions, the network, the remote repository) is the
    environment; what they do to the file system is modelled here. *)

Module Proc.
Import PyStr FS.

(** a non-zero [returncode]: an exit status, or minus the signal number *)
Inductive failure_code : Type :=
| Exited (status : positive)
| Signaled (signal : positive).

Definition code_value (c : failure_code) : Z :=
  match c with
  | Exited n => Z.pos n
  | Signaled n => Z.neg n
  end.

(** What can go wrong with [rm -rf] (it is run without a timeout): it ends
    with a non-zero code, having deleted only part of what the path names,
    [rest] being what remains there; or it cannot be started. *)
Inductive rm_fault : Type :=
| RmExit (code : failure_code) (rest : option node)
| RmNotStarted (exc : string).

(** what the exchange with the remote end comes to, once [git] has prepared
    its destination: the tree of the latest commit, or a failure with what
    [git] prints about it *)
Inductive git_outcome : Type :=
| Checkout (tree : list (string * node))
| GitExit (code : failure_code) (stderr : string).

(** What [git clone --depth 1 url] meets: the exchange takes so many seconds
    and has an outcome; or [git] gives up on its arguments before it looks
    at the destination (a URL that names no repository); or the process
    cannot be started at all. *)
Inductive remote_answer : Type :=
| Ran (seconds : N) (outcome : git_outcome)
| GitRefuses (code : failure_code) (stderr : string)
| GitNotStarted (exc : string).

(** The environment: the fault of [rm] on a path, if any; what a clone of a
    URL meets; what a clone of the URL has written at its destination when
    it is killed; and what [git] prints after its first line when the clone
    of the URL succeeds. *)
Record env : Type := {
  rm_faults : string -> option rm_fault;
  remote : string -> remote_answer;
  interrupted : string -> list (string * node);
  warnings : string -> string
}.

(** the exceptions of [subprocess.run], and any other *)
Inductive exn : Type :=
| CalledProcessError (cmd : list string) (code : failure_code)
| TimeoutExpired (cmd : list string) (timeout : N)
| OtherException (message : string).

Record completed : Type := { returncode : Z; stderr : string }.

Inductive result (A : Type) : Type :=
| Return (a : A)
| Raise (e : exn).
Arguments Return {A} a.
Arguments Raise {A} e.

(** [signal.Signals(n).name] on Linux *)
Definition signal_name (n : positive) : option string :=
  match n with
  | 1 => Some "SIGHUP" | 2 => Some "SIGINT" | 3 => Some "SIGQUIT"
  | 4 => Some "SIGILL" | 5 => Some "SIGTRAP" | 6 => Some "SIGABRT"
  | 7 => Some "SIGBUS" | 8 => Some "SIGFPE" | 9 => Some "SIGKILL"
  | 10 => Some "SIGUSR1" | 11 => Some "SIGSEGV" | 12 => Some "SIGUSR2"
  | 13 => Some "SIGPIPE" | 14 => Some "SIGALRM" | 15 => Some "SIGTERM"
  | 16 => Some "SIGSTKFLT" | 17 => Some "SIGCHLD" | 18 => Some "SIGCONT"
  | 19 => Some "SIGSTOP" | 20 => Some "SIGTSTP" | 21 => Some "SIGTTIN"
  | 22 => Some "SIGTTOU" | 23 => Some "SIGURG" | 24 => Some "SIGXCPU"
  | 25 => Some "SIGXFSZ" | 26 => Some "SIGVTALRM" | 27 => Some "SIGPROF"
  | 28 => Some "SIGWINCH" | 29 => Some "SIGIO" | 30 => Some "SIGPWR"
  | 31 => Some "SIGSYS" | 34 => Some "SIGRTMIN" | 64 => Some "SIGRTMAX"
  | _ => None
  end%positive.

Definition decimal (n : positive) : string :=
  NilEmpty.string_of_uint (Pos.to_uint n).

(** [str(e)] of a [CalledProcessError] *)
Definition called_process_error_message (cmd : list string) (c : failure_code)
  : string :=
  "Command '" ++ repr_list cmd ++ "' "
    ++ match c with
       | Exited n => "returned non-zero exit status " ++ decimal n ++ "."
       | Signaled n =>
           match signal_name n with
           | Some name => "died with <Signals." ++ name ++ ": " ++ decimal n ++ ">."
           | None => "died with unknown signal " ++ decimal n ++ "."
           end
       end.

(** [str(e)] *)
Definition exn_str (e : exn) : string :=
  match e with
  | CalledProcessError cmd c => called_process_error_message cmd c
  | TimeoutExpired cmd timeout =>
      "Command '" ++ repr_list cmd ++ "' timed out after "
        ++ NilEmpty.string_of_uint (N.to_uint timeout) ++ " seconds"
  | OtherException m => m
  end.

(** the last component of a path, trailing slashes aside *)
Definition last_component (path : string) : string :=
  last (filter OsPath.nonempty (split OsPath.sep path)) "".

(** [rm] does not touch a path whose last component is [.] or [..] *)
Definition dot_or_dotdot (path : string) : bool :=
  (String.eqb (last_component path) "." || String.eqb (last_component path) "..")%bool.

(** [subprocess.run(['rm', '-rf', path], check=True)], whose result the
    caller drops.  With [-f] a missing target is no error; [rm] refuses the
    root directory and a path that ends in [.] or [..], with exit status 1. *)
Definition run_rm (e : env) (fs : node) (path : string) : result unit * node :=
  let cmd := ["rm"; "-rf"; path] in
  match rm_faults e path with
  | Some (RmNotStarted m) => (Raise (OtherException m), fs)
  | Some (RmExit c rest) =>
      (Raise (CalledProcessError cmd c),
       match resolve fs path, rest with
       | Some ((_ :: _) as l), Some n => set_at l n fs
       | Some ((_ :: _) as l), None => remove_at l fs
       | _, _ => fs
       end)
  | None =>
      match resolve fs path with
      | None => (Return tt, fs)
      | Some l =>
          if (dot_or_dotdot path || Nat.eqb (List.length l) 0)%bool
          then (Raise (CalledProcessError cmd (Exited 1)), fs)
          else (Return tt, remove_at l fs)
      end
  end.

Fixpoint only_sep (s : string) : bool :=
  match s with
  | EmptyString => true
  | String c rest => (Ascii.eqb c OsPath.sep && only_sep rest)%bool
  end.

(** [git] drops the slashes at the end of the directory it is given, all
    but a first character *)
Fixpoint strip_trailing_slashes (dir : string) : string :=
  match dir with
  | EmptyString => EmptyString
  | String c rest =>
      if only_sep rest then String c EmptyString
      else String c (strip_trailing_slashes rest)
  end.

(** how [git clone] finds or makes its destination *)
Inductive prepared : Type :=
| Ready (fs : node) (l : loc) (existed : bool)
| Fatal (fs : node) (stderr : string).

(** A destination that exists must be an empty directory.  One that does
    not is made: first the directories leading to it, those still missing,
    then the directory itself, which must not be there by then (it is when
    the path ends in [.] or [..]). *)
Definition prepare_destination (fs : node) (dir : string) : prepared :=
  match resolve fs dir with
  | Some l =>
      match get fs l with
      | Some (Dir []) => Ready fs l true
      | _ =>
          Fatal fs ("fatal: destination path '" ++ dir
                    ++ "' already exists and is not an empty directory." ++ nl)
      end
  | None =>
      let comps := split OsPath.sep dir in
      let name := last comps "" in
      match mkdirs fs (removelast comps) with
      | (fs1, Some l) =>
          if is_dir_at fs1 l then
            if (special name || String.eqb name "..")%bool then
              Fatal fs1 ("fatal: could not create work tree dir '" ++ dir
                         ++ "': File exists" ++ nl)
            else
              match get fs1 (l ++ [name])%list with
              | Some _ =>
                  Fatal fs1 ("fatal: could not create work tree dir '" ++ dir
                             ++ "': File exists" ++ nl)
              | None =>
                  Ready (set_at (l ++ [name])%list (Dir []) fs1) (l ++ [name])%list false
              end
          else
            Fatal fs1 ("fatal: could not create leading directories of '" ++ dir
                       ++ "': Not a directory" ++ nl)
      | (fs1, None) =>
          Fatal fs1 ("fatal: could not create leading directories of '" ++ dir
                     ++ "': Not a directory" ++ nl)
      end
  end.

(** [subprocess.run(['git', 'clone', '--depth', '1', url, path],
    capture_output=True, text=True, timeout=timeout)].  [git] looks at its
    arguments, prepares the destination, says [Cloning into ...] and turns
    to the remote end.  If that takes longer than [timeout] seconds [git]
    is killed and [TimeoutExpired] raised; what it has written stays.  A
    [git] that fails by itself removes what it has put at the destination,
    not the directories it made on the way there.  On success the
    checked-out tree is at the destination. *)
Definition run_git_clone (e : env) (fs : node) (url path : string) (timeout : N)
  : result completed * node :=
  let cmd := ["git"; "clone"; "--depth"; "1"; url; path] in
  match remote e url with
  | GitNotStarted m => (Raise (OtherException m), fs)
  | GitRefuses c err => (Return {| returncode := code_value c; stderr := err |}, fs)
  | Ran seconds outcome =>
      let dir := strip_trailing_slashes path in
      match prepare_destination fs dir with
      | Fatal fs1 err => (Return {| returncode := 128; stderr := err |}, fs1)
      | Ready fs1 l existed =>
          let partial := set_at l (Dir (interrupted e url)) fs1 in
          let first_line := "Cloning into '" ++ dir ++ "'..." ++ nl in
          if (timeout <? seconds)%N then (Raise (TimeoutExpired cmd timeout), partial)
          else
            match outcome with
            | GitExit c err =>
                (Return {| returncode := code_value c; stderr := first_line ++ err |},
                 match c with
                 | Exited _ => if existed then fs1 else remove_at l fs1
                 | Signaled _ => partial
                 end)
            | Checkout tree =>
                (Return {| returncode := 0; stderr := first_line ++ warnings e url |},
                 set_at l (Dir tree) fs1)
            end
      end
  end.

End Proc.

(** ** Text files: [open(path, 'r', encoding='utf-8', errors='ignore')] *)

Module TextIO.
Import Proc.

(** a Python [str] value read from a file: its code points *)
Definition text := list N.

Definition is_cont (c : N) : bool := ((128 <=? c) && (c <=? 191))%N%bool.

(** the range of the second byte, which depends on the lead byte *)
Definition second_ok (c0 c1 : N) : bool :=
  (if c0 =? 224 then (160 <=? c1) && (c1 <=? 191)
   else if c0 =? 237 then (128 <=? c1) && (c1 <=? 159)
   else if c0 =? 240 then (144 <=? c1) && (c1 <=? 191)
   else if c0 =? 244 then (128 <=? c1) && (c1 <=? 143)
   else is_cont c1)%N%bool.

Definition low6 (c : N) : N := N.land c 63.

(** UTF-8 decoding with [errors='ignore']: the bytes of a malformed
    sequence, up to the byte that breaks it, are dropped. *)
Fixpoint decode_ignore (bs : list byte) : text :=
  match bs with
  | [] => []
  | b0 :: r0 =>
      let c0 := Byte.to_N b0 in
      if (c0 <? 128)%N then c0 :: decode_ignore r0
      else if (c0 <? 194)%N then decode_ignore r0
      else if (c0 <? 224)%N then
        match r0 with
        | [] => []
        | b1 :: r1 =>
            let c1 := Byte.to_N b1 in
            if is_cont c1
            then N.lor (N.shiftl (N.land c0 31) 6) (low6 c1) :: decode_ignore r1
            else decode_ignore r0
        end
      else if (c0 <? 240)%N then
        match r0 with
        | [] => []
        | b1 :: r1 =>
            let c1 := Byte.to_N b1 in
            if second_ok c0 c1 then
              match r1 with
              | [] => []
              | b2 :: r2 =>
                  let c2 := Byte.to_N b2 in
                  if is_cont c2
                  then N.lor (N.shiftl (N.land c0 15) 12)
                         (N.lor (N.shiftl (low6 c1) 6) (low6 c2)) :: decode_ignore r2
                  else decode_ignore r1
              end
            else decode_ignore r0
        end
      else if (c0 <? 245)%N then
        match r0 with
        | [] => []
        | b1 :: r1 =>
            let c1 := Byte.to_N b1 in
            if second_ok c0 c1 then
              match r1 with
              | [] => []
              | b2 :: r2 =>
                  let c2 := Byte.to_N b2 in
                  if is_cont c2 then
                    match r2 with
                    | [] => []
                    | b3 :: r3 =>
                        let c3 := Byte.to_N b3 in
                        if is_cont c3
                        then N.lor (N.shiftl (N.land c0 7) 18)
                               (N.lor (N.shiftl (low6 c1) 12)
                                  (N.lor (N.shiftl (low6 c2) 6) (low6 c3)))
                             :: decode_ignore r3
                        else decode_ignore r2
                    end
                  else decode_ignore r1
              end
            else decode_ignore r0
        end
      else decode_ignore r0
  end.

(** universal newlines: [\r\n] and a lone [\r] are read as [\n] *)
Fixpoint translate_newlines (cs : text) : text :=
  match cs with
  | [] => []
  | c :: rest =>
      if (c =? 13)%N then
        10%N :: match rest with
                | [] => []
                | d :: rest' =>
                    if (d =? 10)%N then translate_newlines rest'
                    else translate_newlines rest
                end
      else c :: translate_newlines rest
  end.

Definition decoded (data : list byte) : text :=
  translate_newlines (decode_ignore data).

(** [f.read()] *)
Definition read_all (data : list byte) : text := decoded data.

(** the first [size] characters *)
Fixpoint take (size : Z) (t : text) : text :=
  match t with
  | [] => []
  | c :: rest => if (0 <? size)%Z then c :: take (size - 1) rest else []
  end.

(** the range of [Py_ssize_t] *)
Definition fits_ssize_t (size : Z) : bool :=
  ((- 2 ^ 63 <=? size) && (size <? 2 ^ 63))%Z%bool.

(** the size of the chunks the reader asks the file for *)
Definition chunk_size : Z := 8192.

(** [f.read(size)]: at most [size] characters; everything when [size] is
    negative.  A size that is no [Py_ssize_t] raises [OverflowError].  For a
    size above its chunk the reader asks for a buffer of about that many
    bytes; [fits data size] says whether it gets what it asks for while
    reading these bytes, and if it does not [MemoryError] is raised, whose
    text is empty. *)
Definition read (fits : list byte -> Z -> bool) (data : list byte) (size : Z)
  : result text :=
  if negb (fits_ssize_t size)
  then Raise (OtherException "cannot fit 'int' into an index-sized integer")
  else if (size <? 0)%Z then Return (decoded data)
  else if ((size <=? chunk_size)%Z || fits data size)%bool
  then Return (take size (decoded data))
  else Raise (OtherException "").

End TextIO.



(** ** The handlers of [server.py] *)

Module Server.
Import PyStr FS Proc TextIO.

Definition REPO_DIR : string := "/repos".

(** the JSON bodies the handlers answer with *)
Record file_record : Type := { fr_path : string; fr_size : nat }.

Record entry : Type := {
  e_path : string;
  e_content : text;
  e_error : option string
}.

Inductive body : Type :=
| Error (error : string)
| Cloned (path : string)
| FileList (files : list file_record)
| FileContent (path : string) (content : text)
| Analysis (files : list entry).

Record response : Type := { status : nat; payload : body }.

(** [os.path.join(REPO_DIR, f"{owner}_{repo}")] *)
Definition repo_path (owner repo : string) : string :=
  OsPath.join REPO_DIR (owner ++ "_" ++ repo).

(** *** [/clone] *)

Record clone_request : Type := {
  c_repo_url : option string;
  c_owner : option string;
  c_repo : option string;
  c_token : option string
}.

(** [repo_url.replace('https://', f'https://{token}@') if token else repo_url] *)
Definition clone_url (repo_url : string) (token : option string) : string :=
  match token with
  | Some (String _ _ as t) => replace repo_url "https://" ("https://" ++ t ++ "@")
  | _ => repo_url
  end.

(** [if os.path.exists(repo_path): subprocess.run(['rm', '-rf', repo_path],
    check=True)] *)
Definition remove_existing (e : env) (fs : node) (path : string)
  : result unit * node :=
  if path_exists fs path then run_rm e fs path else (Return tt, fs).

(** the body of the [try] block *)
Definition clone_attempt (e : env) (fs : node)
    (repo_url : string) (token : option string) (path : string)
  : result response * node :=
  let '(removed, fs1) := remove_existing e fs path in
  match removed with
  | Raise x => (Raise x, fs1)
  | Return _ =>
      let '(ran, fs2) := run_git_clone e fs1 (clone_url repo_url token) path 300 in
      match ran with
      | Raise x => (Raise x, fs2)
      | Return result =>
          if negb (returncode result =? 0)%Z
          then (Return {| status := 500;
                          payload := Error ("Git clone failed: " ++ stderr result) |}, fs2)
          else (Return {| status := 200; payload := Cloned path |}, fs2)
      end
  end.

Definition clone_repo (e : env) (fs : node) (data : clone_request)
  : response * node :=
  match c_repo_url data, c_owner data, c_repo data with
  | Some (String _ _ as repo_url), Some (String _ _ as owner), Some (String _ _ as repo) =>
      let '(r, fs') :=
        clone_attempt e fs repo_url (c_token data) (repo_path owner repo) in
      match r with
      | Return resp => (resp, fs')
      | Raise (TimeoutExpired _ _) =>
          ({| status := 500; payload := Error "Clone operation timed out" |}, fs')
      | Raise x => ({| status := 500; payload := Error (exn_str x) |}, fs')
      end
  | _, _, _ =>
      ({| status := 400; payload := Error "Missing required parameters" |}, fs)
  end.

Section Reads.

(** the working directory of the server process, which [os.path.abspath]
    and [os.path.relpath] consult for relative paths *)
Variable cwd : string.

(** whether a read of a requested size gets its buffer (see [TextIO.read]) *)
Variable fits : list byte -> Z -> bool.

(** [os.stat(path).st_size] *)
Definition stat_size (fs : node) (path : string) : result nat :=
  match node_at fs path with
  | Some (File _ data) => Return (List.length data)
  | Some (Dir _) => Return 4096
  | None =>
      Raise (OtherException ("[Errno 2] No such file or directory: '" ++ path ++ "'"))
  end.

(** [open(path, 'r', ...)] followed by reading: the bytes of the file, or
    the [OSError] raised. *)
Definition open_file (fs : node) (path : string) : result (list byte) :=
  match node_at fs path with
  | Some (File None data) => Return data
  | Some (File (Some err) _) => Raise (OtherException err)
  | Some (Dir _) =>
      Raise (OtherException ("[Errno 21] Is a directory: '" ++ path ++ "'"))
  | None =>
      Raise (OtherException ("[Errno 2] No such file or directory: '" ++ path ++ "'"))
  end.

Definition is_dir (n : node) : bool :=
  match n with
  | Dir _ => true
  | File _ _ => false
  end.

Definition file_names (es : list (string * node)) : list string :=
  map fst (filter (fun e => negb (is_dir (snd e))) es).

(** [os.walk(top)], top-down, when the loop body prunes [dirs] in place to
    the names [keep] accepts: the pairs [(root, filenames)] in the order
    they are yielded.  A [top] that is not a directory yields nothing. *)
Fixpoint os_walk (keep : string -> bool) (top : string) (n : node)
  : list (string * list string) :=
  match n with
  | File _ _ => []
  | Dir es =>
      (top, file_names es)
      :: flat_map
           (fun e =>
              let '(name, child) := e in
              if (is_dir child && keep name)%bool
              then os_walk keep (OsPath.join top name) child
              else [])
           es
  end.

(** *** [/files] *)

(** the body of the inner [for filename in filenames] loop *)
Definition list_file (fs : node) (path root : string)
    (acc : result (list file_record)) (filename : string)
  : result (list file_record) :=
  match acc with
  | Raise x => Raise x
  | Return files =>
      let file_path := OsPath.join root filename in
      let rel_path := OsPath.relpath cwd file_path path in
      if contains ".git" rel_path then Return files
      else match stat_size fs file_path with
           | Raise x => Raise x
           | Return size =>
               Return (files ++ [{| fr_path := rel_path; fr_size := size |}])%list
           end
  end.

Definition keep_dir (d : string) : bool := negb (String.eqb d ".git").

(** [os.walk(path)] on the file system *)
Definition os_walk_path (keep : string -> bool) (fs : node) (path : string)
  : list (string * list string) :=
  match node_at fs path with
  | Some top => os_walk keep path top
  | None => []
  end.

(** one turn of [for root, dirs, filenames in os.walk(repo_path)]: the
    loop over [filenames] *)
Definition visit_body (fs : node) (path : string)
    (acc : result (list file_record)) (visit : string * list string)
  : result (list file_record) :=
  fold_left (list_file fs path (fst visit)) (snd visit) acc.

(** the whole loop, from [files = []] *)
Definition list_loop (fs : node) (path : string) : result (list file_record) :=
  fold_left (visit_body fs path) (os_walk_path keep_dir fs path) (Return []).

Definition list_files (fs : node) (owner repo : option string) : response :=
  match owner, repo with
  | Some (String _ _ as owner), Some (String _ _ as repo) =>
      let path := repo_path owner repo in
      if negb (path_exists fs path)
      then {| status := 404; payload := Error "Repository not cloned" |}
      else match list_loop fs path with
           | Raise x => {| status := 500; payload := Error (exn_str x) |}
           | Return files => {| status := 200; payload := FileList files |}
           end
  | _, _ => {| status := 400; payload := Error "Missing owner or repo parameter" |}
  end.

(** *** The security check shared by the two readers *)

(** [os.path.abspath(full_path).startswith(os.path.abspath(repo_path))] *)
Definition inside_repo (path full_path : string) : bool :=
  startswith (OsPath.abspath cwd full_path) (OsPath.abspath cwd path).

(** *** [/file/<path:file_path>] *)

Definition get_file (fs : node) (file_path : string) (owner repo : option string)
  : response :=
  match owner, repo with
  | Some (String _ _ as owner), Some (String _ _ as repo) =>
      let path := repo_path owner repo in
      let full_path := OsPath.join path file_path in
      if negb (inside_repo path full_path)
      then {| status := 400; payload := Error "Invalid file path" |}
      else if negb (path_exists fs full_path)
      then {| status := 404; payload := Error "File not found" |}
      else if negb (isfile fs full_path)
      then {| status := 400; payload := Error "Path is not a file" |}
      else match open_file fs full_path with
           | Return data =>
               {| status := 200; payload := FileContent file_path (read_all data) |}
           | Raise x => {| status := 500; payload := Error (exn_str x) |}
           end
  | _, _ => {| status := 400; payload := Error "Missing owner or repo parameter" |}
  end.

(** *** [/analyze] *)

Record analyze_request : Type := {
  a_owner : option string;
  a_repo : option string;
  a_file_paths : list string;
  a_max_size : option Z
}.

(** one turn of [for file_path in file_paths]: exactly one [append] *)
Definition analyze_file (fs : node) (path : string) (max_size : Z)
    (results : list entry) (file_path : string) : list entry :=
  let full_path := OsPath.join path file_path in
  if negb (inside_repo path full_path)
  then (results ++ [{| e_path := file_path; e_content := [];
                       e_error := Some "Invalid file path" |}])%list
  else if (negb (path_exists fs full_path) || negb (isfile fs full_path))%bool
  then (results ++ [{| e_path := file_path; e_content := [];
                       e_error := Some "File not found" |}])%list
  else match open_file fs full_path with
       | Return data =>
           match read fits data max_size with
           | Return content =>
               (results ++ [{| e_path := file_path; e_content := content;
                               e_error := None |}])%list
           | Raise x =>
               (results ++ [{| e_path := file_path; e_content := [];
                               e_error := Some (exn_str x) |}])%list
           end
       | Raise x =>
           (results ++ [{| e_path := file_path; e_content := [];
                           e_error := Some (exn_str x) |}])%list
       end.

Definition analyze_files (fs : node) (data : analyze_request) : response :=
  let max_size := match a_max_size data with Some n => n | None => 8000%Z end in
  match a_owner data, a_repo data with
  | Some (String _ _ as owner), Some (String _ _ as repo) =>
      let path := repo_path owner repo in
      if negb (path_exists fs path)
      then {| status := 404; payload := Error "Repository not cloned" |}
      else {| status := 200;
              payload := Analysis
                           (fold_left (analyze_file fs path max_size)
                              (a_file_paths data) []) |}
  | _, _ => {| status := 400; payload := Error "Missing owner or repo parameter" |}
  end.

End Reads.

End Server.

(** ** Notions the properties are stated with *)

Module Spec.
Import PyStr FS TextIO Server.

(** the segments of the canonical form of an absolute path *)
Definition segments (path : string) : list string :=
  filter OsPath.nonempty (split OsPath.sep (OsPath.normpath path)).

Fixpoint is_prefix (a b : list string) : bool :=
  match a, b with
  | [], _ => true
  | x :: a', y :: b' => (String.eqb x y && is_prefix a' b')%bool
  | _ :: _, [] => false
  end.

(** containment of [target] in [root], segment by segment *)
Definition contained_by_segments (root target : string) : bool :=
  is_prefix (segments root) (segments target).

(** a relative path with a [..] segment *)
Definition has_traversal (file_path : string) : bool :=
  (negb (OsPath.isabs file_path)
   && existsb (String.eqb "..") (split OsPath.sep file_path))%bool.

(** every regular file below a directory, with the names leading to it
    (after [pre]) and its size: the files of the directory first, then those
    of its subdirectories, in the order of the entries *)
Fixpoint all_files (pre : list string) (n : node) : list (list string * nat) :=
  match n with
  | File _ _ => []
  | Dir es =>
      (flat_map
         (fun e =>
            let '(name, child) := e in
            match child with
            | File _ data => [((pre ++ [name])%list, List.length data)]
            | Dir _ => []
            end)
         es
       ++ flat_map
            (fun e =>
               let '(name, child) := e in
               if is_dir child then all_files (pre ++ [name])%list child else [])
            es)%list
  end.

Definition files_under (top : node) : list (list string * nat) :=
  all_files [] top.

Definition record_of (f : list string * nat) : file_record :=
  {| fr_path := PyStr.join "/" (fst f); fr_size := snd f |}.

(** inside a directory named [.git] *)
Definition in_git_dir (f : list string * nat) : bool :=
  existsb (String.eqb ".git") (removelast (fst f)).

(** the listing as the specification words it: every regular file that is
    not inside the version-control metadata directory *)
Definition tracked_listing (top : node) : list file_record :=
  map record_of (filter (fun f => negb (in_git_dir f)) (files_under top)).

(** the listing with every file left out whose relative path has [.git]
    somewhere in it *)
Definition mentions_git (f : list string * nat) : bool :=
  contains ".git" (PyStr.join "/" (fst f)).

Definition listed (fl : list (list string * nat)) : list file_record :=
  map record_of (filter (fun f => negb (mentions_git f)) fl).

Definition plain_listing (top : node) : list file_record :=
  listed (files_under top).

(** names a directory entry can have *)
Definition valid_name (name : string) : bool :=
  (negb (String.eqb name "") && negb (String.eqb name ".")
   && negb (String.eqb name "..") && negb (contains "/" name))%bool.

(** a tree as a file system holds it: valid names, no name twice in a
    directory *)
Fixpoint well_formed (n : node) : Prop :=
  match n with
  | File _ _ => True
  | Dir es =>
      NoDup (map fst es)
      /\ (fix all (l : list (string * node)) : Prop :=
            match l with
            | [] => True
            | (name, child) :: rest =>
                valid_name name = true /\ well_formed child /\ all rest
            end) es
  end.

(** the number of bytes of the UTF-8 form of a text *)
Definition utf8_length (t : text) : nat :=
  fold_right
    (fun c acc =>
       (if (c <? 128)%N then 1 else if (c <? 2048)%N then 2
        else if (c <? 65536)%N then 3 else 4) + acc)
    0%nat t.

(** [root] is the path [os.walk path] builds for the directory reached from
    [path] through the names [pre], which is at the location [here] *)
Definition visits (fs : node) (path root : string) (pre : list string) (here : loc)
  : Prop :=
  OsPath.isabs root = true
  /\ OsPath.norm_comps root = (OsPath.norm_comps path ++ pre)%list
  /\ resolve fs root = Some here
  /\ Forall (fun n => valid_name n = true) pre.

(** a string without the separator; a component [normpath] keeps *)
Definition no_sep (s : string) : Prop := contains "/" s = false.

Definition clean (c : string) : Prop := c <> "" /\ no_sep c.

(** what a batch entry is read from: the bytes of the file a requested path
    names, when the path passes the checks and the file opens *)
Definition readable (cwd : string) (fs : node) (root file_path : string)
  : option (list byte) :=
  let full_path := OsPath.join root file_path in
  if (inside_repo cwd root full_path && path_exists fs full_path
      && isfile fs full_path)%bool
  then match open_file fs full_path with
       | Proc.Return data => Some data
       | Proc.Raise _ => None
       end
  else None.

End Spec.

(** ** Sample file systems *)

Module Samples.
Import FS Proc Server.

Definition bytes (s : string) : list byte := list_byte_of_string s.

(** two snapshots whose directory names share a prefix, and a file outside
    the storage root *)
Definition two_snapshots : node :=
  Dir [("etc", Dir [("passwd", File None (bytes "root:x:0:0"))]);
       ("repos",
        Dir [("a_b",
              Dir [("README.md", File None (bytes "hello"));
                   (".gitignore", File None (bytes "*.o"));
                   (".git", Dir [("config", File None (bytes "[core]"))]);
                   (".github", Dir [("ci.yml", File None (bytes "on: push"))]);
                   ("src",
                    Dir [("main.py", File None (bytes "print(1)"));
                         ("locked", File (Some "[Errno 13] Permission denied") [])])]);
             ("a_bc", Dir [("secret.txt", File None (bytes "s3cret"))])])].

(** a snapshot with one file of three two-byte characters *)
Definition accents : node :=
  Dir [("repos",
        Dir [("a_b", Dir [("cafe.txt", File None [xc3; xa9; xc3; xa9; xc3; xa9])])])].

Definition only_repos : node := Dir [("repos", Dir [])].

Definition first_tree : list (string * node) :=
  [("old.txt", File None (bytes "1")); (".git", Dir [("HEAD", File None (bytes "a"))])].

Definition second_tree : list (string * node) :=
  [("new.txt", File None (bytes "22")); (".git", Dir [("HEAD", File None (bytes "b"))])].

(** a remote that serves [first_tree] at one URL and [second_tree] at
    another, and nothing else *)
Definition two_remotes : env :=
  {| rm_faults := fun _ => None;
     remote := fun url =>
       if String.eqb url "https://host/one" then Ran 2 (Checkout first_tree)
       else if String.eqb url "https://tok@host/two" then Ran 3 (Checkout second_tree)
       else if String.eqb url "https://host/huge" then Ran 301 (Checkout first_tree)
       else if String.eqb url "nonsense"
       then GitRefuses (Exited 128)
              ("fatal: repository 'nonsense' does not exist" ++ PyStr.nl)
       else Ran 1 (GitExit (Exited 128) ("fatal: repository not found" ++ PyStr.nl));
     interrupted := fun _ => [(".git", Dir [("HEAD", File None (bytes "ref"))])];
     warnings := fun _ => "" |}.


(** a process that gets every buffer it asks for, and one that gets none *)
Definition roomy : list byte -> Z -> bool := fun _ _ => true.

Definition tight : list byte -> Z -> bool := fun _ _ => false.

End Samples.

(** ** Further notions *)

Module Derived.
Import PyStr FS Proc TextIO Server.

(** the three parameters [clone_repo] requires are there and not empty *)
Definition clone_parameters_present (data : clone_request) : bool :=
  (truthy (c_repo_url data) && truthy (c_owner data) && truthy (c_repo data))%bool.




(** what [f.read(size)] keeps of a text *)
Definition capped (size : Z) (t : text) : text :=
  if (size <? 0)%Z then t else take size t.

(** [f.read(size)] is carried out on these bytes: [size] is a
    [Py_ssize_t], and a buffer asked for is had *)
Definition granted (fits : list byte -> Z -> bool) (data : list byte) (size : Z)
  : bool :=
  (fits_ssize_t size && ((size <=? chunk_size)%Z || fits data size))%bool.

(** no [..] among the components of a path *)
Definition no_dotdot (file_path : string) : Prop :=
  Forall (fun c => c <> "..") (split OsPath.sep file_path).

(** the character [c] does not occur in [s] *)
Fixpoint lacks (c : ascii) (s : string) : bool :=
  match s with
  | EmptyString => true
  | String a rest => (negb (Ascii.eqb a c) && lacks c rest)%bool
  end.

(** the records gathered so far, if any, have no [.git] in their paths *)
Definition git_free (acc : result (list file_record)) : Prop :=
  match acc with
  | Return files => Forall (fun r => contains ".git" (fr_path r) = false) files
  | Raise _ => True
  end.

(** [fs'] has the storage root [/repos], and at the location [l] beside the
    one being written what [fs] has there *)
Definition kept (l : loc) (fs fs' : node) : Prop :=
  is_dir_at fs' [] = true
  /\ is_dir_at fs' ["repos"] = true
  /\ get fs' l = get fs l.

(** neither location is at or below the other *)
Definition apart (a b : loc) : Prop :=
  (forall r, b <> a ++ r)%list /\ (forall r, a <> b ++ r)%list.

End Derived.

Import PyStr FS Proc TextIO Server Samples.

Example split_ex : PyStr.split "/" "/repos//a_b/" = [""; "repos"; ""; "a_b"; ""].
Proof. reflexivity. Qed.
Example normpath_ex1 : OsPath.normpath "/repos/a_b/../../etc/passwd" = "/etc/passwd".
Proof. reflexivity. Qed.
Example normpath_ex2 : OsPath.normpath "//repos/./a_b//x/.." = "//repos/a_b".
Proof. reflexivity. Qed.
Example normpath_ex3 : OsPath.normpath "a/../../b" = "../b".
Proof. reflexivity. Qed.
Example relpath_ex : OsPath.relpath "/app" "/repos/a_b/src/x.py" "/repos/a_b" = "src/x.py".
Proof. reflexivity. Qed.
Example replace_ex :
  PyStr.replace "https://h/https://x" "https://" "https://T@"
  = "https://T@h/https://T@x".
Proof. reflexivity. Qed.

(** ** The path check *)

Section PathCheck.

Variable cwd : string.
Variable fits : list byte -> Z -> bool.

(** C1. A relative path with [..] segments that leads out of the snapshot
    root into a sibling directory whose name starts with the root's name
    passes the check of both readers: [get_file] answers 200 with the
    content of the outside file, and [analyze_files] returns it in an entry
    without an error.  A path leaving the root for an unrelated directory is
    rejected by both. *)
Theorem traversal_into_sibling_is_served :
  let root := repo_path "a" "b" in
  let file_path := "../a_bc/secret.txt" in
  Spec.has_traversal file_path = true
  /\ Spec.contained_by_segments root (OsPath.join root file_path) = false
  /\ get_file cwd two_snapshots file_path (Some "a") (Some "b")
     = {| status := 200;
          payload := FileContent file_path (read_all (bytes "s3cret")) |}
  /\ analyze_files cwd fits two_snapshots
       {| a_owner := Some "a"; a_repo := Some "b";
          a_file_paths := [file_path; "../../etc/passwd"]; a_max_size := None |}
     = {| status := 200;
          payload := Analysis
            [{| e_path := file_path; e_content := read_all (bytes "s3cret");
                e_error := None |};
             {| e_path := "../../etc/passwd"; e_content := [];
                e_error := Some "Invalid file path" |}] |}
  /\ get_file cwd two_snapshots "../../etc/passwd" (Some "a") (Some "b")
     = {| status := 400; payload := Error "Invalid file path" |}.
Proof. repeat split; vm_compute; reflexivity. Qed.

(** C2. The check is a comparison of strings: for the root [/repos/a_b]
    and a target in the sibling [/repos/a_bc] it answers yes, where the
    comparison by segments answers no. *)
Theorem prefix_check_accepts_sibling :
  let root := "/repos/a_b" in
  let target := OsPath.join root "../a_bc/secret.txt" in
  OsPath.abspath cwd target = "/repos/a_bc/secret.txt"
  /\ inside_repo cwd root target = true
  /\ Spec.contained_by_segments root target = false.
Proof. repeat split; vm_compute; reflexivity. Qed.

End PathCheck.

(** ** The batch reader *)

Section Batch.

Variable cwd : string.
Variable fits : list byte -> Z -> bool.

Lemma take_length (size : Z) (t : text) :
  (0 <= size)%Z -> (Z.of_nat (List.length (take size t)) <= size)%Z.
Proof.
  revert size. induction t as [|c t IH]; intros size Hpos; cbn [take List.length].
  - lia.
  - destruct (0 <? size)%Z eqn:Hs; cbn [List.length]; [|lia].
    apply Z.ltb_lt in Hs. specialize (IH (size - 1)%Z). lia.
Qed.

Lemma take_all (size : Z) (t : text) :
  (Z.of_nat (List.length t) <= size)%Z -> take size t = t.
Proof.
  revert size. induction t as [|c t IH]; intros size Hlen; cbn [take]; [reflexivity|].
  cbn [List.length] in Hlen.
  destruct (0 <? size)%Z eqn:Hs; [|apply Z.ltb_ge in Hs; lia].
  rewrite IH by lia. reflexivity.
Qed.

Lemma read_length (data : list byte) (size : Z) (t : text) :
  (0 <= size)%Z -> read fits data size = Return t ->
  (Z.of_nat (List.length t) <= size)%Z.
Proof.
  intros Hpos. unfold read.
  destruct (negb (fits_ssize_t size)); [discriminate|].
  destruct (size <? 0)%Z eqn:Hneg; [lia|].
  destruct ((size <=? chunk_size)%Z || fits data size)%bool; [|discriminate].
  intros H. injection H as <-. now apply take_length.
Qed.

(** C5. [max_size] bounds the number of characters handed back, not the
    number of bytes read: of a file of three two-byte characters, a request
    with [max_size = 2] returns two characters, which are four bytes of the
    file. *)
Theorem max_size_counts_characters :
  analyze_files cwd fits accents
    {| a_owner := Some "a"; a_repo := Some "b";
       a_file_paths := ["cafe.txt"]; a_max_size := Some 2%Z |}
  = {| status := 200;
       payload := Analysis [{| e_path := "cafe.txt"; e_content := [233%N; 233%N];
                               e_error := None |}] |}
  /\ Spec.utf8_length [233%N; 233%N] = 4
  /\ decode_ignore [xc3; xa9; xc3; xa9] = [233%N; 233%N].
Proof. repeat split; vm_compute; reflexivity. Qed.

(** one turn of the loop appends one entry, which depends on the file
    system and on the path of that turn only *)
Lemma analyze_file_appends fs root max_size results p :
  exists r,
    analyze_file cwd fits fs root max_size results p = (results ++ [r])%list
    /\ e_path r = p
    /\ match Spec.readable cwd fs root p with
       | Some data =>
           match read fits data max_size with
           | Return content => e_content r = content /\ e_error r = None
           | Raise x => e_content r = [] /\ e_error r = Some (exn_str x)
           end
       | None => e_content r = [] /\ e_error r <> None
       end.
Proof.
  unfold analyze_file, Spec.readable.
  destruct (inside_repo cwd root (OsPath.join root p)); simpl.
  2:{ eexists; repeat split; simpl; congruence. }
  destruct (path_exists fs (OsPath.join root p)); simpl.
  2:{ eexists; repeat split; simpl; congruence. }
  destruct (isfile fs (OsPath.join root p)); simpl.
  2:{ eexists; repeat split; simpl; congruence. }
  destruct (open_file fs (OsPath.join root p)) as [data|x].
  - destruct (read fits data max_size) as [content|x];
      eexists; repeat split; simpl; congruence.
  - eexists; repeat split; simpl; congruence.
Qed.

(** C3. A batch of four paths is answered by four entries in the order
    of the request, and the missing file has its error without a loss to
    the others.  But the entry of the path [../a_bc/secret.txt], which
    leaves the snapshot root for the sibling directory [/repos/a_bc], has
    no error: it holds the content of the file outside the root. *)
Theorem batch_entry_for_sibling_traversal :
  let root := repo_path "a" "b" in
  let outside := "../a_bc/secret.txt" in
  Spec.has_traversal outside = true
  /\ Spec.contained_by_segments root (OsPath.join root outside) = false
  /\ analyze_files cwd fits two_snapshots
       {| a_owner := Some "a"; a_repo := Some "b";
          a_file_paths := ["README.md"; outside; "missing.txt"; "src/main.py"];
          a_max_size := None |}
     = {| status := 200;
          payload := Analysis
            [{| e_path := "README.md"; e_content := read_all (bytes "hello");
                e_error := None |};
             {| e_path := outside; e_content := read_all (bytes "s3cret");
                e_error := None |};
             {| e_path := "missing.txt"; e_content := [];
                e_error := Some "File not found" |};
             {| e_path := "src/main.py"; e_content := read_all (bytes "print(1)");
                e_error := None |}] |}.
Proof. repeat split; vm_compute; reflexivity. Qed.

End Batch.

(** ** Missing targets and directories *)

Section Rejections.

Variable cwd : string.
Variable fits : list byte -> Z -> bool.

(** C8. A path inside the root that names nothing and one that names a
    directory are told apart by [get_file] (404 [File not found], 400
    [Path is not a file]); [analyze_files] gives both the same entry error,
    [File not found]. *)
Theorem read_rejection_kinds fs owner repo file_path max_size :
  owner <> "" -> repo <> "" ->
  let root := repo_path owner repo in
  let full_path := OsPath.join root file_path in
  let batch :=
    analyze_files cwd fits fs
      {| a_owner := Some owner; a_repo := Some repo;
         a_file_paths := [file_path]; a_max_size := max_size |} in
  let not_found :=
    {| status := 200;
       payload := Analysis [{| e_path := file_path; e_content := [];
                               e_error := Some "File not found" |}] |} in
  inside_repo cwd root full_path = true ->
  path_exists fs root = true ->
  (path_exists fs full_path = false ->
   get_file cwd fs file_path (Some owner) (Some repo)
   = {| status := 404; payload := Error "File not found" |}
   /\ batch = not_found)
  /\ (path_exists fs full_path = true -> isfile fs full_path = false ->
      get_file cwd fs file_path (Some owner) (Some repo)
      = {| status := 400; payload := Error "Path is not a file" |}
      /\ batch = not_found).
Proof.
  intros Ho Hr root full_path batch not_found Hin Hroot.
  destruct owner as [|oc os]; [contradiction|].
  destruct repo as [|rc rs]; [contradiction|].
  subst batch not_found.
  unfold get_file, analyze_files, analyze_file;
    cbn [a_owner a_repo a_file_paths a_max_size fold_left].
  fold root. fold full_path. rewrite Hin, Hroot. cbn [negb].
  split.
  - intros Hex. rewrite Hex. cbn [negb orb app]. split; reflexivity.
  - intros Hex Hfile. rewrite Hex, Hfile. cbn [negb orb app]. split; reflexivity.
Qed.

End Rejections.

Lemma read_rejection_kinds_witness :
  (get_file "/app" two_snapshots "missing.txt" (Some "a") (Some "b")
   = {| status := 404; payload := Error "File not found" |})
  /\ (get_file "/app" two_snapshots "src" (Some "a") (Some "b")
      = {| status := 400; payload := Error "Path is not a file" |}).
Proof.
  split.
  - apply (read_rejection_kinds "/app" roomy two_snapshots "a" "b" "missing.txt" None);
      try discriminate; vm_compute; reflexivity.
  - apply (read_rejection_kinds "/app" roomy two_snapshots "a" "b" "src" None);
      try discriminate; vm_compute; reflexivity.
Defined.

(** In the batch reader the two rejections cannot be told apart. *)
Lemma batch_reports_directory_as_not_found :
  path_exists two_snapshots (OsPath.join (repo_path "a" "b") "missing.txt") = false
  /\ node_at two_snapshots (OsPath.join (repo_path "a" "b") "src")
     = get two_snapshots ["repos"; "a_b"; "src"]
  /\ is_dir_at two_snapshots ["repos"; "a_b"; "src"] = true
  /\ analyze_files "/app" roomy two_snapshots
       {| a_owner := Some "a"; a_repo := Some "b";
          a_file_paths := ["missing.txt"; "src"]; a_max_size := None |}
     = {| status := 200;
          payload := Analysis
            [{| e_path := "missing.txt"; e_content := [];
                e_error := Some "File not found" |};
             {| e_path := "src"; e_content := [];
                e_error := Some "File not found" |}] |}.
Proof. repeat split; vm_compute; reflexivity. Qed.

(** ** Keys and directories *)

(** C9. The keys [('a', 'b_c')] and [('a_b', 'c')] are different and get
    the same directory; every read under one is a read under the other, and
    after a clone under the second key the listing and the reads under the
    first show the new checkout, the old one being gone. *)
Theorem key_mapping_not_injective :
  ("a", "b_c") <> ("a_b", "c")
  /\ repo_path "a" "b_c" = repo_path "a_b" "c"
  /\ (forall cwd fs,
        list_files cwd fs (Some "a") (Some "b_c")
        = list_files cwd fs (Some "a_b") (Some "c"))
  /\ (forall cwd fs file_path,
        get_file cwd fs file_path (Some "a") (Some "b_c")
        = get_file cwd fs file_path (Some "a_b") (Some "c"))
  /\ (forall cwd fits fs paths max_size,
        analyze_files cwd fits fs
          {| a_owner := Some "a"; a_repo := Some "b_c";
             a_file_paths := paths; a_max_size := max_size |}
        = analyze_files cwd fits fs
            {| a_owner := Some "a_b"; a_repo := Some "c";
               a_file_paths := paths; a_max_size := max_size |})
  /\ (let fs1 :=
        snd (clone_repo two_remotes only_repos
               {| c_repo_url := Some "https://host/one"; c_owner := Some "a";
                  c_repo := Some "b_c"; c_token := None |}) in
      let fs2 :=
        snd (clone_repo two_remotes fs1
               {| c_repo_url := Some "https://host/two"; c_owner := Some "a_b";
                  c_repo := Some "c"; c_token := Some "tok" |}) in
      list_files "/app" fs1 (Some "a") (Some "b_c")
      = {| status := 200;
           payload := FileList [{| fr_path := "old.txt"; fr_size := 1 |}] |}
      /\ list_files "/app" fs2 (Some "a") (Some "b_c")
         = {| status := 200;
              payload := FileList [{| fr_path := "new.txt"; fr_size := 2 |}] |}
      /\ get_file "/app" fs2 "old.txt" (Some "a") (Some "b_c")
         = {| status := 404; payload := Error "File not found" |}
      /\ get_file "/app" fs2 "new.txt" (Some "a") (Some "b_c")
         = {| status := 200; payload := FileContent "new.txt" [50%N; 50%N] |}).
Proof.
  split; [discriminate|].
  split; [reflexivity|].
  split; [reflexivity|].
  split; [reflexivity|].
  split; [reflexivity|].
  repeat split; vm_compute; reflexivity.
Qed.

(** ** Cloning *)

Section CloneErrors.

Variables (e : env) (fs : node).




End CloneErrors.


(** ** The fetch URL *)

Section FetchUrl.

Variable new : string.

Let scheme : string := "https://".

Lemma append_assoc_str (a b c : string) : (a ++ b) ++ c = a ++ (b ++ c).
Proof. induction a as [|x a IH]; simpl; [reflexivity | now rewrite IH]. Qed.

Lemma prefix_append (p a x : string) :
  String.prefix p a = true -> String.prefix p (a ++ x) = true.
Proof.
  revert a; induction p as [|c p IH]; intros a H; [now destruct (a ++ x)|].
  destruct a as [|d a]; [discriminate|]. simpl in *.
  destruct (ascii_dec c d); [now apply IH | discriminate].
Qed.

Lemma prefix_length (p a : string) :
  String.prefix p a = true -> String.length p <= String.length a.
Proof.
  revert a; induction p as [|c p IH]; intros a H; simpl; [lia|].
  destruct a as [|d a]; [discriminate|]. simpl in *.
  destruct (ascii_dec c d); [|discriminate].
  specialize (IH a H). lia.
Qed.

(** [https://] has no border: an occurrence cannot start inside the text
    before another occurrence and run into it. *)
Lemma scheme_unbordered (a b : string) :
  a <> "" -> String.prefix scheme (a ++ scheme ++ b) = true ->
  String.prefix scheme a = true.
Proof.
  intros Ha H. subst scheme.
  apply prefix_correct in H. apply prefix_correct.
  assert (Hz : forall x, substring 0 0 x = "") by (intros []; reflexivity).
  do 8 (destruct a as [|? a];
        [first [contradiction | simpl in H; congruence]|]).
  simpl in *. rewrite Hz in *. exact H.
Qed.

Lemma replace_scan_skip (x b : string) :
  replace_scan scheme new (String.length x) (x ++ b) = replace_scan scheme new 0 b.
Proof.
  induction x as [|c x IH]; simpl; [|exact IH].
  destruct b; reflexivity.
Qed.

Lemma replace_scan_here (c : ascii) (s : string) :
  replace_scan scheme new 0 (String c s)
  = if String.prefix scheme (String c s)
    then new ++ replace_scan scheme new 7 s
    else String c (replace_scan scheme new 0 s).
Proof. reflexivity. Qed.

Lemma prefix_self (p b : string) : String.prefix p (p ++ b) = true.
Proof.
  induction p as [|c p IH]; simpl; [now destruct b|].
  destruct (ascii_dec c c); [exact IH | congruence].
Qed.

Lemma replace_scan_split (b : string) :
  forall a k, k <= String.length a ->
    replace_scan scheme new k (a ++ scheme ++ b)
    = replace_scan scheme new k a ++ new ++ replace_scan scheme new 0 b.
Proof.
  induction a as [|c a IH]; intros k Hk.
  - assert (k = 0) by (simpl in Hk; lia); subst k.
    change ("" ++ scheme ++ b) with (String "h" ("ttps://" ++ b)).
    rewrite replace_scan_here.
    change (String "h" ("ttps://" ++ b)) with (scheme ++ b).
    rewrite prefix_self.
    change 7 with (String.length "ttps://").
    now rewrite replace_scan_skip.
  - destruct k as [|k].
    + change (String c a ++ scheme ++ b) with (String c (a ++ scheme ++ b)).
      rewrite !replace_scan_here.
      change (String c (a ++ scheme ++ b)) with (String c a ++ scheme ++ b).
      destruct (String.prefix scheme (String c a ++ scheme ++ b)) eqn:Hwhole.
      * assert (Hpre : String.prefix scheme (String c a) = true)
          by (apply (scheme_unbordered _ b); [discriminate | exact Hwhole]).
        rewrite Hpre.
        pose proof (prefix_length _ _ Hpre) as Hlen. simpl in Hlen.
        rewrite IH by lia. now rewrite append_assoc_str.
      * destruct (String.prefix scheme (String c a)) eqn:Hpre.
        -- apply (prefix_append _ _ (scheme ++ b)) in Hpre. congruence.
        -- rewrite IH by lia. reflexivity.
    + simpl in Hk. simpl. apply IH. lia.
Qed.

Lemma replace_scan_absent (s : string) :
  contains scheme s = false -> replace_scan scheme new 0 s = s.
Proof.
  induction s as [|c s IH]; intros H; [reflexivity|].
  change (contains scheme (String c s))
    with (String.prefix scheme (String c s) || contains scheme s)%bool in H.
  apply orb_false_iff in H. destruct H as [Hp Hc].
  rewrite replace_scan_here, Hp, IH by assumption. reflexivity.
Qed.

End FetchUrl.

(** C10. Without a token, or with an empty one, the fetch URL is
    [repo_url], whatever [repo_url] is.  With a token, every occurrence of
    [https://] is replaced by [https://<token>@]: the URL of a text around
    an occurrence is the URL of what precedes it, the replacement, and the
    URL of what follows; a [repo_url] without [https://] is left as it is
    and the token is not used. *)
Theorem clone_url_spec (repo_url : string) (c : ascii) (t : string) :
  let token := String c t in
  clone_url repo_url None = repo_url
  /\ clone_url repo_url (Some "") = repo_url
  /\ (contains "https://" repo_url = false ->
      clone_url repo_url (Some token) = repo_url)
  /\ forall before after,
       clone_url (before ++ "https://" ++ after) (Some token)
       = clone_url before (Some token) ++ ("https://" ++ token ++ "@")
         ++ clone_url after (Some token).
Proof.
  intros token. unfold clone_url, replace; subst token.
  repeat split.
  - now apply replace_scan_absent.
  - intros before after. apply replace_scan_split. lia.
Qed.

Lemma clone_url_spec_witness :
  clone_url "http://host/repo.git" (Some "tok") = "http://host/repo.git"
  /\ clone_url "https://host/repo.git" None = "https://host/repo.git"
  /\ clone_url "see https://a and https://b" (Some "tok")
     = "see https://tok@a and https://tok@b".
Proof.
  destruct (clone_url_spec "http://host/repo.git" "t" "ok") as (_ & _ & Hsame & Hall).
  split; [exact (Hsame eq_refl)|].
  split; [exact (proj1 (clone_url_spec "https://host/repo.git" "t" "ok"))|].
  change "see https://a and https://b" with ("see " ++ "https://" ++ "a and https://b").
  rewrite (Hall "see " "a and https://b").
  change "a and https://b" with ("a and " ++ "https://" ++ "b").
  rewrite (Hall "a and " "b").
  reflexivity.
Defined.

(** ** The file system: locations, walks, and the two commands *)

Section FileSystemFacts.

Local Open Scope list_scope.

Lemma lookup_set_entry_same name n es :
  lookup_entry name (set_entry name n es) = Some n.
Proof.
  induction es as [|[k v] es IH]; simpl.
  - now rewrite String.eqb_refl.
  - destruct (String.eqb k name) eqn:Hk; simpl; rewrite Hk; [reflexivity | exact IH].
Qed.

Lemma lookup_set_entry_other name k n es :
  k <> name -> lookup_entry k (set_entry name n es) = lookup_entry k es.
Proof.
  intros Hne. induction es as [|[k' v] es IH]; simpl.
  - destruct (String.eqb name k) eqn:Hk; [|reflexivity].
    apply String.eqb_eq in Hk. congruence.
  - destruct (String.eqb k' name) eqn:Hk'; simpl.
    + apply String.eqb_eq in Hk'. subst k'.
      destruct (String.eqb name k) eqn:Hk; [|reflexivity].
      apply String.eqb_eq in Hk. congruence.
    + now rewrite IH.
Qed.

Lemma lookup_remove_entry_same name es :
  lookup_entry name (remove_entry name es) = None.
Proof.
  induction es as [|[k v] es IH]; simpl; [reflexivity|].
  destruct (String.eqb k name) eqn:Hk; simpl; [exact IH|].
  now rewrite Hk.
Qed.

Lemma get_app fs a b :
  get fs (a ++ b) = match get fs a with
                    | Some n => get n b
                    | None => None
                    end.
Proof.
  revert fs; induction a as [|name a IH]; intros fs; simpl; [reflexivity|].
  destruct fs as [err data|es]; [reflexivity|].
  destruct (lookup_entry name es); [apply IH | reflexivity].
Qed.

Lemma get_prefix_exists fs a b : get fs (a ++ b) <> None -> get fs a <> None.
Proof. rewrite get_app. destruct (get fs a); congruence. Qed.

Lemma removelast_exists fs l : get fs l <> None -> get fs (removelast l) <> None.
Proof.
  destruct l as [|x l] using rev_ind; [trivial|].
  rewrite removelast_last. apply get_prefix_exists.
Qed.

Lemma is_dir_at_exists fs l : is_dir_at fs l = true -> get fs l <> None.
Proof. unfold is_dir_at. destruct (get fs l); congruence. Qed.

Lemma is_dir_at_kind fs l : is_dir_at fs l = true <-> kind_at fs l = Some true.
Proof.
  unfold is_dir_at, kind_at.
  destruct (get fs l) as [[? ?|?]|]; split; congruence.
Qed.

Lemma kind_at_exists fs l : get fs l <> None <-> kind_at fs l <> None.
Proof.
  unfold kind_at. destruct (get fs l) as [[? ?|?]|]; split; congruence.
Qed.

Lemma preserves_refl fs : preserves fs fs.
Proof. intros l _. reflexivity. Qed.

Lemma preserves_trans fs1 fs2 fs3 :
  preserves fs1 fs2 -> preserves fs2 fs3 -> preserves fs1 fs3.
Proof.
  intros H12 H23 l Hl.
  rewrite <- (H12 l Hl). apply H23.
  apply kind_at_exists. rewrite (H12 l Hl). now apply kind_at_exists.
Qed.

(** Writing at [p] leaves the kind of every place that is not at or below
    [p]. *)
Lemma kind_at_set_at_frame p n :
  forall fs x, (forall r, x <> p ++ r)%list ->
    kind_at (set_at p n fs) x = kind_at fs x.
Proof.
  induction p as [|name p IH]; intros fs x Hx.
  - exfalso. now apply (Hx x).
  - destruct fs as [err data|es]; [reflexivity|].
    cbn [set_at].
    destruct x as [|y x].
    + destruct (lookup_entry name es); [reflexivity|].
      destruct p; reflexivity.
    + destruct (String.eqb y name) eqn:Hy.
      * apply String.eqb_eq in Hy. subst y.
        assert (Hx' : forall r, x <> (p ++ r)%list)
          by (intros r ->; now apply (Hx r)).
        destruct (lookup_entry name es) as [child|] eqn:Hchild.
        -- unfold kind_at. cbn [get].
           rewrite lookup_set_entry_same, Hchild.
           apply (IH child x Hx').
        -- destruct p as [|q p]; [|reflexivity].
           exfalso. now apply (Hx x).
      * apply String.eqb_neq in Hy.
        destruct (lookup_entry name es) as [child|] eqn:Hchild.
        -- unfold kind_at. cbn [get].
           now rewrite lookup_set_entry_other.
        -- destruct p as [|q p]; [|reflexivity].
           unfold kind_at. cbn [get].
           now rewrite lookup_set_entry_other.
Qed.

Lemma get_set_at_existing l n :
  forall fs, get fs l <> None -> get (set_at l n fs) l = Some n.
Proof.
  induction l as [|name l IH]; intros fs Hl; [reflexivity|].
  destruct fs as [err data|es]; [now elim Hl|].
  cbn [get set_at] in *.
  destruct (lookup_entry name es) as [child|]; [|now elim Hl].
  cbn [get]. rewrite lookup_set_entry_same. now apply IH.
Qed.

Lemma get_set_at_new l c n :
  forall fs, is_dir_at fs l = true -> get fs (l ++ [c]) = None ->
    get (set_at (l ++ [c]) n fs) (l ++ [c]) = Some n.
Proof.
  induction l as [|name l IH]; intros fs Hdir Hnew.
  - unfold is_dir_at in Hdir. cbn [get app set_at] in *.
    destruct fs as [err data|es]; [discriminate|].
    destruct (lookup_entry c es) as [child|]; [discriminate|].
    cbn [get]. now rewrite lookup_set_entry_same.
  - unfold is_dir_at in Hdir.
    change ((name :: l) ++ [c])%list with (name :: (l ++ [c]))%list in *.
    cbn [get set_at] in *.
    destruct fs as [err data|es]; [discriminate|].
    destruct (lookup_entry name es) as [child|]; [|discriminate].
    cbn [get]. rewrite lookup_set_entry_same. now apply IH.
Qed.

Lemma get_remove_at l :
  forall fs, l <> [] -> get (remove_at l fs) l = None.
Proof.
  induction l as [|name l IH]; intros fs Hl; [congruence|].
  destruct fs as [err data|es]; [reflexivity|].
  cbn [remove_at].
  destruct l as [|q l].
  - cbn [get]. now rewrite lookup_remove_entry_same.
  - destruct (lookup_entry name es) as [child|] eqn:Hchild.
    + cbn [get]. rewrite lookup_set_entry_same. apply IH. discriminate.
    + cbn [get]. now rewrite Hchild.
Qed.

(** *** Walks *)

Lemma walk_none fs comps : fold_left (walk_step fs) comps None = None.
Proof. induction comps; simpl; auto. Qed.

Lemma mkdir_stopped comps fs :
  fold_left mkdir_step comps (fs, None) = (fs, None).
Proof. induction comps; simpl; auto. Qed.

(** a step that succeeds succeeds in every file system that keeps what the
    first has *)
Lemma walk_step_preserved fs fs' l c l1 :
  preserves fs fs' ->
  walk_step fs (Some l) c = Some l1 -> walk_step fs' (Some l) c = Some l1.
Proof.
  intros Hp. unfold walk_step.
  destruct (is_dir_at fs l) eqn:Hdir; [|discriminate].
  assert (Hdir' : is_dir_at fs' l = true).
  { apply is_dir_at_kind. rewrite (Hp l (is_dir_at_exists _ _ Hdir)).
    now apply is_dir_at_kind. }
  rewrite Hdir'.
  destruct (special c); [trivial|].
  destruct (String.eqb c ".."); [trivial|].
  destruct (get fs (l ++ [c])) eqn:Hget; [|discriminate].
  intros H; inversion H; subst l1.
  assert (Hex : get fs' (l ++ [c]) <> None).
  { apply kind_at_exists. rewrite (Hp (l ++ [c])%list) by congruence.
    apply kind_at_exists. congruence. }
  destruct (get fs' (l ++ [c])); congruence.
Qed.

Lemma walk_preserved fs fs' comps :
  preserves fs fs' ->
  forall l lf,
    fold_left (walk_step fs) comps (Some l) = Some lf ->
    fold_left (walk_step fs') comps (Some l) = Some lf.
Proof.
  intros Hp. induction comps as [|c comps IH]; intros l lf H; [exact H|].
  cbn [fold_left] in *.
  destruct (walk_step fs (Some l) c) as [l1|] eqn:Hstep;
    [|now rewrite walk_none in H].
  rewrite (walk_step_preserved _ _ _ _ _ Hp Hstep). now apply IH.
Qed.

(** where a walk ends depends on the path only *)
Lemma walk_same_end fs fs' comps :
  forall l lf lf',
    fold_left (walk_step fs) comps (Some l) = Some lf ->
    fold_left (walk_step fs') comps (Some l) = Some lf' ->
    lf = lf'.
Proof.
  induction comps as [|c comps IH]; intros l lf lf' H H'; cbn [fold_left] in *.
  - congruence.
  - destruct (walk_step fs (Some l) c) as [l1|] eqn:Hs;
      [|now rewrite walk_none in H].
    destruct (walk_step fs' (Some l) c) as [l1'|] eqn:Hs';
      [|now rewrite walk_none in H'].
    assert (l1 = l1').
    { unfold walk_step in Hs, Hs'.
      destruct (is_dir_at fs l); [|discriminate].
      destruct (is_dir_at fs' l); [|discriminate].
      destruct (special c); [congruence|].
      destruct (String.eqb c ".."); [congruence|].
      destruct (get fs (l ++ [c])); [|discriminate].
      destruct (get fs' (l ++ [c])); [|discriminate].
      congruence. }
    subst l1'. exact (IH _ _ _ H H').
Qed.

(** a walk ends at a place that exists *)
Lemma walk_end_exists fs comps :
  forall l lf,
    get fs l <> None ->
    fold_left (walk_step fs) comps (Some l) = Some lf ->
    get fs lf <> None.
Proof.
  induction comps as [|c comps IH]; intros l lf Hl H; cbn [fold_left] in *.
  - congruence.
  - destruct (walk_step fs (Some l) c) as [l1|] eqn:Hs;
      [|now rewrite walk_none in H].
    apply (IH l1 lf); [|exact H].
    unfold walk_step in Hs.
    destruct (is_dir_at fs l); [|discriminate].
    destruct (special c); [congruence|].
    destruct (String.eqb c "..").
    + inversion Hs; subst l1. now apply removelast_exists.
    + destruct (get fs (l ++ [c])) eqn:Hget; [|discriminate].
      inversion Hs; subst l1. congruence.
Qed.

(** *** Creating directories *)

Lemma mkdir_step_spec fs l c fs1 l1 :
  mkdir_step (fs, Some l) c = (fs1, Some l1) ->
  preserves fs fs1 /\ walk_step fs1 (Some l) c = Some l1.
Proof.
  unfold mkdir_step, walk_step.
  destruct (is_dir_at fs l) eqn:Hdir; [|discriminate].
  destruct (special c) eqn:Hsp.
  { intros H; inversion H; subst. rewrite Hdir. split; [apply preserves_refl | reflexivity]. }
  destruct (String.eqb c "..") eqn:Hdd.
  { intros H; inversion H; subst. rewrite Hdir. split; [apply preserves_refl | reflexivity]. }
  destruct (get fs (l ++ [c])) eqn:Hget.
  { intros H; inversion H; subst. rewrite Hdir, Hget.
    split; [apply preserves_refl | reflexivity]. }
  intros H; inversion H; subst fs1 l1.
  assert (Hp : preserves fs (set_at (l ++ [c]) (Dir []) fs)).
  { intros x Hx. apply kind_at_set_at_frame.
    intros r ->. apply Hx. rewrite get_app, Hget. reflexivity. }
  split; [exact Hp|].
  assert (Hdir' : is_dir_at (set_at (l ++ [c]) (Dir []) fs) l = true).
  { apply is_dir_at_kind. rewrite (Hp l (is_dir_at_exists _ _ Hdir)).
    now apply is_dir_at_kind. }
  rewrite Hdir'. now rewrite get_set_at_new.
Qed.

Lemma mkdir_fold_spec comps :
  forall fs l fs' lf,
    fold_left mkdir_step comps (fs, Some l) = (fs', Some lf) ->
    preserves fs fs' /\ fold_left (walk_step fs') comps (Some l) = Some lf.
Proof.
  induction comps as [|c comps IH]; intros fs l fs' lf H; cbn [fold_left] in *.
  - inversion H; subst. split; [apply preserves_refl | reflexivity].
  - destruct (mkdir_step (fs, Some l) c) as [fs1 [l1|]] eqn:Hstep;
      [|rewrite mkdir_stopped in H; discriminate].
    destruct (mkdir_step_spec _ _ _ _ _ Hstep) as [Hp1 Hw1].
    destruct (IH _ _ _ _ H) as [Hp Hw].
    split; [exact (preserves_trans _ _ _ Hp1 Hp)|].
    now rewrite (walk_step_preserved _ _ _ _ _ Hp Hw1).
Qed.

Lemma extends_or_not (p x : loc) :
  (exists r, x = p ++ r) \/ (forall r, x <> p ++ r).
Proof.
  revert x; induction p as [|a p IH]; intros x.
  - left. now exists x.
  - destruct x as [|b x]; [right; discriminate|].
    destruct (string_dec b a) as [->|Hne].
    + destruct (IH x) as [[r ->]|Hno].
      * left. now exists r.
      * right. intros r Hr. inversion Hr. now apply (Hno r).
    + right. intros r Hr. inversion Hr. congruence.
Qed.

(** filling an empty directory keeps every path leading where it led *)
Lemma fill_empty_dir fs l tree :
  get fs l = Some (Dir []) -> preserves fs (set_at l (Dir tree) fs).
Proof.
  intros Hl x Hx.
  destruct (extends_or_not l x) as [[r ->]|Hno].
  - destruct r as [|c r].
    + rewrite app_nil_r. unfold kind_at.
      rewrite get_set_at_existing, Hl by congruence. reflexivity.
    + exfalso. apply Hx. rewrite get_app, Hl. reflexivity.
  - now apply kind_at_set_at_frame.
Qed.

Lemma node_at_filled fs path l tree :
  resolve fs path = Some l -> get fs l = Some (Dir []) ->
  node_at (set_at l (Dir tree) fs) path = Some (Dir tree).
Proof.
  intros Hres Hl. unfold node_at.
  assert (Hres' : resolve (set_at l (Dir tree) fs) path = Some l).
  { unfold resolve in *. destruct (OsPath.isabs path); [|discriminate].
    apply (walk_preserved fs); [now apply fill_empty_dir | exact Hres]. }
  rewrite Hres'. apply get_set_at_existing. congruence.
Qed.

End FileSystemFacts.

(** ** Paths as strings *)

Section PathStrings.

#[local] Abbreviation sep := OsPath.sep.

#[local] Abbreviation no_sep := Spec.no_sep.
#[local] Abbreviation clean := Spec.clean.

Lemma prefix_empty (s : string) : String.prefix "" s = true.
Proof. now destruct s. Qed.

Lemma starts_with_sep (c : ascii) (s : string) :
  String.prefix "/" (String c s) = Ascii.eqb c sep.
Proof.
  change (String.prefix "/" (String c s))
    with (if ascii_dec "/" c then String.prefix "" s else false).
  rewrite prefix_empty.
  destruct (ascii_dec "/" c) as [<-|Hne]; [reflexivity|].
  symmetry. apply Ascii.eqb_neq. intros ->. now apply Hne.
Qed.

Lemma contains_sep_cons (c : ascii) (s : string) :
  contains "/" (String c s) = (Ascii.eqb c sep || contains "/" s)%bool.
Proof.
  change (contains "/" (String c s))
    with (String.prefix "/" (String c s) || contains "/" s)%bool.
  now rewrite starts_with_sep.
Qed.

Lemma no_sep_cons (c : ascii) (s : string) :
  no_sep (String c s) <-> c <> sep /\ no_sep s.
Proof.
  unfold no_sep. rewrite contains_sep_cons, orb_false_iff, Ascii.eqb_neq.
  reflexivity.
Qed.

Lemma no_sep_empty : no_sep "".
Proof. reflexivity. Qed.

Lemma split_not_nil (s : string) : split sep s <> [].
Proof.
  induction s as [|c s IH]; simpl; [discriminate|].
  destruct (Ascii.eqb c sep); [discriminate|].
  destruct (split sep s); [congruence | discriminate].
Qed.

Lemma split_app_sep (a b : string) :
  split sep (a ++ String sep b) = (split sep a ++ split sep b)%list.
Proof.
  induction a as [|c a IH]; simpl.
  - reflexivity.
  - rewrite IH. destruct (Ascii.eqb c sep); [reflexivity|].
    pose proof (split_not_nil a) as Hne.
    destruct (split sep a) as [|h t]; [congruence | reflexivity].
Qed.

Lemma split_no_sep (n : string) : no_sep n -> split sep n = [n].
Proof.
  induction n as [|c n IH]; intros H; [reflexivity|].
  apply no_sep_cons in H. destruct H as [Hc Hn].
  simpl. apply Ascii.eqb_neq in Hc. rewrite Hc, (IH Hn). reflexivity.
Qed.

Lemma split_segments_no_sep (s : string) : Forall no_sep (split sep s).
Proof.
  induction s as [|c s IH]; simpl.
  - constructor; [exact no_sep_empty | constructor].
  - destruct (Ascii.eqb c sep) eqn:Hc.
    + constructor; [exact no_sep_empty | exact IH].
    + destruct (split sep s) as [|h t]; constructor.
      * apply no_sep_cons. split; [now apply Ascii.eqb_neq | exact no_sep_empty].
      * constructor.
      * inversion IH; subst. apply no_sep_cons.
        split; [now apply Ascii.eqb_neq | assumption].
      * now inversion IH.
Qed.

(** a string that ends with the separator is something followed by it *)
Lemma endswith_sep_inv (p : string) :
  endswith_char p sep = true -> exists q, p = q ++ String sep "".
Proof.
  induction p as [|c p IH]; [discriminate|].
  destruct p as [|d p].
  - simpl. intros H. apply Ascii.eqb_eq in H. subst c. now exists "".
  - intros H. destruct (IH H) as [q Hq]. exists (String c q).
    simpl. now rewrite <- Hq.
Qed.

Lemma endswith_app_nonempty (a : string) (c : ascii) (n : string) :
  endswith_char (a ++ String c n) sep = endswith_char (String c n) sep.
Proof.
  induction a as [|x a IH]; [reflexivity|].
  change (String x a ++ String c n) with (String x (a ++ String c n)).
  rewrite <- IH. destruct a; reflexivity.
Qed.

Lemma endswith_no_sep (n : string) : no_sep n -> endswith_char n sep = false.
Proof.
  induction n as [|c n IH]; intros H; [reflexivity|].
  apply no_sep_cons in H. destruct H as [Hc Hn].
  destruct n as [|d n]; simpl.
  - now apply Ascii.eqb_neq.
  - exact (IH Hn).
Qed.

(** *** Names *)

Lemma valid_name_inv (n : string) :
  Spec.valid_name n = true ->
  n <> "" /\ n <> "." /\ n <> ".." /\ no_sep n.
Proof.
  unfold Spec.valid_name, no_sep.
  rewrite !andb_true_iff, !negb_true_iff, !String.eqb_neq. tauto.
Qed.

Lemma valid_name_not_abs (n : string) :
  Spec.valid_name n = true -> startswith n "/" = false.
Proof.
  intros H. apply valid_name_inv in H. destruct H as (Hne & _ & _ & Hsep).
  destruct n as [|c n]; [congruence|].
  unfold startswith. rewrite starts_with_sep.
  apply no_sep_cons in Hsep. now apply Ascii.eqb_neq.
Qed.

Lemma isabs_app (p x : string) : OsPath.isabs p = true -> OsPath.isabs (p ++ x) = true.
Proof. unfold OsPath.isabs, startswith. apply prefix_append. Qed.

(** [join] with a name: the components of the result are those of the
    directory, a trailing empty one dropped, and the name *)
Lemma join_name (p n : string) :
  OsPath.isabs p = true -> Spec.valid_name n = true ->
  OsPath.isabs (OsPath.join p n) = true
  /\ exists xs,
       (split sep p = xs \/ split sep p = (xs ++ [""])%list)
       /\ split sep (OsPath.join p n) = (xs ++ [n])%list.
Proof.
  intros Habs Hn. unfold OsPath.join.
  rewrite (valid_name_not_abs n Hn).
  destruct (valid_name_inv n Hn) as (_ & _ & _ & Hsep).
  assert (Hp : String.eqb p "" = false).
  { apply String.eqb_neq. intros ->. discriminate. }
  rewrite Hp. cbn [orb].
  destruct (endswith_char p sep) eqn:Hend.
  - split; [now apply isabs_app|].
    destruct (endswith_sep_inv p Hend) as [q ->].
    exists (split sep q). split.
    + right. now rewrite split_app_sep.
    + rewrite append_assoc_str. cbn [append].
      now rewrite split_app_sep, (split_no_sep n Hsep).
  - split; [now apply isabs_app|].
    exists (split sep p). split; [now left|].
    cbn [append]. now rewrite split_app_sep, (split_no_sep n Hsep).
Qed.

(** a loop over the components that passes over empty ones sees [join p n]
    as [p] followed by [n] *)
Lemma fold_join_name {A : Type} (f : A -> string -> A) (init : A) (p n : string) :
  (forall acc, f (f acc "") n = f acc n) ->
  OsPath.isabs p = true -> Spec.valid_name n = true ->
  fold_left f (split sep (OsPath.join p n)) init
  = f (fold_left f (split sep p) init) n.
Proof.
  intros Hskip Habs Hn.
  destruct (join_name p n Habs Hn) as (_ & xs & [Hxs|Hxs] & Hj);
    rewrite Hj, Hxs, !fold_left_app; cbn [fold_left].
  - reflexivity.
  - now rewrite Hskip.
Qed.

(** *** [normpath] of an absolute path *)

Lemma fold_left_ext_eq {A B : Type} (f g : A -> B -> A) (l : list B) (i : A) :
  (forall a b, f a b = g a b) -> fold_left f l i = fold_left g l i.
Proof.
  intros H. revert i; induction l as [|x l IH]; intros i; simpl; [reflexivity|].
  now rewrite H, IH.
Qed.

Lemma norm_step_abs (sl : nat) (acc : list string) (c : string) :
  sl <> 0 -> OsPath.norm_step sl acc c = OsPath.norm_step 1 acc c.
Proof. intros H. destruct sl; [congruence | reflexivity]. Qed.

Lemma initial_slashes_abs (q : string) :
  OsPath.isabs q = true -> OsPath.initial_slashes q <> 0.
Proof.
  unfold OsPath.isabs, OsPath.initial_slashes. intros ->.
  destruct (startswith q "//" && negb (startswith q "///"))%bool; discriminate.
Qed.

Lemma norm_comps_abs (q : string) :
  OsPath.isabs q = true ->
  OsPath.norm_comps q = fold_left (OsPath.norm_step 1) (split sep q) [].
Proof.
  intros H. unfold OsPath.norm_comps. apply fold_left_ext_eq.
  intros a b. apply norm_step_abs. now apply initial_slashes_abs.
Qed.

Lemma norm_step_name (sl : nat) (acc : list string) (n : string) :
  Spec.valid_name n = true -> OsPath.norm_step sl acc n = (acc ++ [n])%list.
Proof.
  intros H. destruct (valid_name_inv n H) as (H0 & H1 & H2 & _).
  unfold OsPath.norm_step.
  apply String.eqb_neq in H0, H1, H2. now rewrite H0, H1, H2.
Qed.

Lemma norm_comps_join (p n : string) :
  OsPath.isabs p = true -> Spec.valid_name n = true ->
  OsPath.norm_comps (OsPath.join p n) = (OsPath.norm_comps p ++ [n])%list.
Proof.
  intros Habs Hn.
  destruct (join_name p n Habs Hn) as [Habs' _].
  rewrite (norm_comps_abs _ Habs), (norm_comps_abs _ Habs').
  rewrite fold_join_name by (try assumption; reflexivity).
  now apply norm_step_name.
Qed.

Lemma Forall_removelast {A : Type} (P : A -> Prop) (l : list A) :
  Forall P l -> Forall P (removelast l).
Proof.
  induction 1 as [|x l Hx Hl IH]; simpl; [constructor|].
  destruct l; [constructor | now constructor].
Qed.

Lemma norm_fold_clean (sl : nat) (comps : list string) :
  Forall no_sep comps ->
  forall acc, Forall clean acc ->
    Forall clean (fold_left (OsPath.norm_step sl) comps acc).
Proof.
  induction 1 as [|c comps Hc Hcs IH]; intros acc Hacc; simpl; [exact Hacc|].
  apply IH. unfold OsPath.norm_step.
  destruct (String.eqb c "") eqn:He; [exact Hacc|].
  destruct (String.eqb c "."); cbn [orb]; [exact Hacc|].
  match goal with |- Forall _ (if ?b then _ else _) => destruct b end.
  - apply Forall_app. split; [exact Hacc|].
    constructor; [|constructor]. split; [now apply String.eqb_neq | exact Hc].
  - now apply Forall_removelast.
Qed.

Lemma norm_comps_clean (q : string) : Forall clean (OsPath.norm_comps q).
Proof.
  unfold OsPath.norm_comps. apply norm_fold_clean; [|constructor].
  apply split_segments_no_sep.
Qed.

Lemma normpath_abs (q : string) :
  OsPath.isabs q = true ->
  OsPath.normpath q
  = OsPath.repeat_sep (OsPath.initial_slashes q)
    ++ PyStr.join "/" (OsPath.norm_comps q).
Proof.
  intros H. unfold OsPath.normpath.
  assert (Hq : String.eqb q "" = false).
  { apply String.eqb_neq. intros ->. discriminate. }
  rewrite Hq.
  pose proof (initial_slashes_abs q H) as Hk.
  destruct (OsPath.initial_slashes q) as [|k]; [congruence|].
  reflexivity.
Qed.

Lemma split_repeat_sep (k : nat) (s : string) :
  filter OsPath.nonempty (split sep (OsPath.repeat_sep k ++ s))
  = filter OsPath.nonempty (split sep s).
Proof. induction k as [|k IH]; [reflexivity | exact IH]. Qed.

Lemma split_join_clean (comps : list string) :
  Forall clean comps ->
  filter OsPath.nonempty (split sep (PyStr.join "/" comps)) = comps.
Proof.
  assert (Hne : forall c, c <> "" -> OsPath.nonempty c = true).
  { intros c Hc. unfold OsPath.nonempty. apply negb_true_iff.
    now apply String.eqb_neq. }
  induction 1 as [|c comps [Hc Hs] Hcs IH]; [reflexivity|].
  destruct comps as [|d comps].
  - cbn [PyStr.join]. rewrite (split_no_sep c Hs). cbn [filter].
    now rewrite (Hne c Hc).
  - change (PyStr.join "/" (c :: d :: comps))
      with (c ++ String sep (PyStr.join "/" (d :: comps))).
    rewrite split_app_sep, (split_no_sep c Hs), filter_app, IH.
    cbn [filter]. now rewrite (Hne c Hc).
Qed.

(** the segments [relpath] works with are the components [normpath] built *)
Lemma abspath_segments (cwd q : string) :
  OsPath.isabs q = true ->
  filter OsPath.nonempty (split sep (OsPath.abspath cwd q)) = OsPath.norm_comps q.
Proof.
  intros H. unfold OsPath.abspath. rewrite H, (normpath_abs q H).
  rewrite split_repeat_sep. apply split_join_clean, norm_comps_clean.
Qed.

(** *** [relpath] of a path below its start *)

Lemma commonprefix_app (a r : list string) :
  OsPath.commonprefix a (a ++ r)%list = a.
Proof.
  induction a as [|x a IH]; simpl; [now destruct r|].
  now rewrite String.eqb_refl, IH.
Qed.

Lemma join_all_names (others : list string) :
  Forall (fun n => Spec.valid_name n = true) others ->
  forall first c tl,
    endswith_char first sep = false -> first = String c tl ->
    OsPath.join_all first others = PyStr.join "/" (first :: others).
Proof.
  unfold OsPath.join_all.
  induction 1 as [|n others Hn Hrest IH]; intros first c tl Hend Hfirst;
    [reflexivity|].
  cbn [fold_left].
  destruct (valid_name_inv n Hn) as (Hne & _ & _ & Hsep).
  destruct n as [|nc ntl]; [congruence|].
  assert (Hjoin : OsPath.join first (String nc ntl) = first ++ "/" ++ String nc ntl).
  { unfold OsPath.join. rewrite (valid_name_not_abs _ Hn), Hend, Hfirst.
    reflexivity. }
  rewrite Hjoin.
  rewrite (IH (first ++ "/" ++ String nc ntl) c (tl ++ "/" ++ String nc ntl)).
  - destruct others as [|m others].
    + reflexivity.
    + change (PyStr.join "/" ((first ++ "/" ++ String nc ntl) :: m :: others))
        with ((first ++ "/" ++ String nc ntl) ++ "/" ++ PyStr.join "/" (m :: others)).
      change (PyStr.join "/" (first :: String nc ntl :: m :: others))
        with (first ++ "/" ++ (String nc ntl ++ "/" ++ PyStr.join "/" (m :: others))).
      rewrite !append_assoc_str. reflexivity.
  - change (first ++ "/" ++ String nc ntl)
      with (first ++ String sep (String nc ntl)).
    rewrite endswith_app_nonempty.
    change (endswith_char (String sep (String nc ntl)) sep)
      with (endswith_char (String nc ntl) sep).
    now apply endswith_no_sep.
  - rewrite Hfirst. reflexivity.
Qed.

Lemma relpath_below (cwd path start : string) (names : list string) :
  OsPath.isabs start = true -> OsPath.isabs path = true ->
  OsPath.norm_comps path = (OsPath.norm_comps start ++ names)%list ->
  names <> [] -> Forall (fun n => Spec.valid_name n = true) names ->
  OsPath.relpath cwd path start = PyStr.join "/" names.
Proof.
  intros Hs Hp Hcomps Hne Hnames. unfold OsPath.relpath.
  rewrite (abspath_segments cwd start Hs), (abspath_segments cwd path Hp), Hcomps.
  rewrite commonprefix_app, Nat.sub_diag. cbn [repeat app].
  rewrite skipn_app, skipn_all, Nat.sub_diag. cbn [app skipn].
  destruct names as [|first others]; [congruence|].
  inversion Hnames as [|? ? Hfirst Hothers]; subst.
  destruct (valid_name_inv first Hfirst) as (Hf & _ & _ & Hsep).
  destruct first as [|c tl]; [congruence|].
  apply (join_all_names others Hothers _ c tl); [|reflexivity].
  now apply endswith_no_sep.
Qed.

End PathStrings.

(** ** The two commands on the file system *)

Section Commands.

#[local] Abbreviation sep := OsPath.sep.

Lemma repo_path_abs (owner repo : string) :
  OsPath.isabs (repo_path owner repo) = true.
Proof.
  unfold repo_path, OsPath.join.
  destruct (startswith (owner ++ "_" ++ repo) "/") eqn:Habs; [exact Habs|].
  cbn [String.eqb orb]. now apply isabs_app.
Qed.

(** *** Trailing slashes *)

Lemma only_sep_split (s : string) :
  only_sep s = true -> split sep s = repeat "" (S (String.length s)).
Proof.
  induction s as [|c s IH]; intros H; [reflexivity|].
  cbn [only_sep] in H. apply andb_true_iff in H. destruct H as [Hc Hs].
  cbn [split String.length]. fold sep. rewrite Hc, (IH Hs). reflexivity.
Qed.

Lemma split_strip (path : string) :
  exists k,
    split sep path = (split sep (strip_trailing_slashes path) ++ repeat "" k)%list.
Proof.
  induction path as [|c path IH]; [now exists 0|].
  cbn [strip_trailing_slashes].
  destruct (only_sep path) eqn:Honly.
  - exists (String.length path).
    cbn [split]. rewrite (only_sep_split path Honly).
    destruct (Ascii.eqb c sep); reflexivity.
  - destruct IH as [k Hk]. exists k.
    cbn [split]. rewrite Hk.
    destruct (Ascii.eqb c sep); [reflexivity|].
    pose proof (split_not_nil (strip_trailing_slashes path)) as Hne.
    destruct (split sep (strip_trailing_slashes path)) as [|seg segs];
      [congruence | reflexivity].
Qed.

Lemma strip_abs (path : string) :
  OsPath.isabs (strip_trailing_slashes path) = OsPath.isabs path.
Proof.
  destruct path as [|c path]; [reflexivity|].
  unfold OsPath.isabs, startswith. cbn [strip_trailing_slashes].
  destruct (only_sep path); now rewrite !starts_with_sep.
Qed.

Lemma walk_empty_components (fs : node) (l : loc) (k : nat) :
  is_dir_at fs l = true ->
  fold_left (walk_step fs) (repeat "" k) (Some l) = Some l.
Proof.
  intros Hdir. induction k as [|k IH]; [reflexivity|].
  cbn [repeat fold_left].
  change (walk_step fs (Some l) "") with (if is_dir_at fs l then Some l else None).
  now rewrite Hdir.
Qed.

(** a directory is reached with or without the slashes at the end *)
Lemma node_at_strip (fs : node) (path : string) (es : list (string * node)) :
  node_at fs (strip_trailing_slashes path) = Some (Dir es) ->
  node_at fs path = Some (Dir es).
Proof.
  unfold node_at, resolve. rewrite strip_abs.
  destruct (OsPath.isabs path); [|discriminate].
  destruct (split_strip path) as [k ->]. rewrite fold_left_app.
  destruct (fold_left (walk_step fs) (split sep (strip_trailing_slashes path)) (Some []))
    as [l|]; [|discriminate].
  intros Hget. rewrite walk_empty_components; [exact Hget|].
  unfold is_dir_at. now rewrite Hget.
Qed.

(** *** Preparing the destination *)

Lemma prepare_ready (fs : node) (dir : string) (fs1 : node) (l : loc) (existed : bool) :
  OsPath.isabs dir = true ->
  prepare_destination fs dir = Ready fs1 l existed ->
  resolve fs1 dir = Some l /\ get fs1 l = Some (Dir []).
Proof.
  intros Habs. unfold prepare_destination.
  destruct (resolve fs dir) as [l0|] eqn:Hres.
  - destruct (get fs l0) as [[err data|[|entry es]]|] eqn:Hget; try discriminate.
    intros H; injection H as <- <- _. now split.
  - set (comps := split sep dir).
    set (lead := removelast comps). set (name := last comps "").
    assert (Hc : comps = (lead ++ [name])%list)
      by (apply app_removelast_last; apply split_not_nil).
    destruct (mkdirs fs lead) as [fs2 [l2|]] eqn:Hmk; [|discriminate].
    destruct (is_dir_at fs2 l2) eqn:Hdir; [|discriminate].
    destruct (special name || String.eqb name "..")%bool eqn:Hname; [discriminate|].
    destruct (get fs2 (l2 ++ [name])%list) eqn:Hnew; [discriminate|].
    intros H; injection H as <- <- _.
    apply orb_false_iff in Hname. destruct Hname as [Hsp Hdd].
    unfold mkdirs in Hmk. destruct (mkdir_fold_spec _ _ _ _ _ Hmk) as [_ Hwalk].
    assert (Hp : preserves fs2 (set_at (l2 ++ [name])%list (Dir []) fs2)).
    { intros x Hx. apply kind_at_set_at_frame.
      intros r ->. apply Hx. rewrite get_app, Hnew. reflexivity. }
    split; [|now apply get_set_at_new].
    unfold resolve. rewrite Habs. fold comps. rewrite Hc, fold_left_app.
    pose proof (walk_preserved _ _ _ Hp _ _ Hwalk) as Hw.
    unfold loc in *. rewrite Hw. cbn [fold_left].
    unfold walk_step.
    assert (Hdir' : is_dir_at (set_at (l2 ++ [name])%list (Dir []) fs2) l2 = true).
    { apply is_dir_at_kind. rewrite (Hp l2 (is_dir_at_exists _ _ Hdir)).
      now apply is_dir_at_kind. }
    rewrite Hdir', Hsp, Hdd. now rewrite get_set_at_new.
Qed.

(** *** Deleting *)

Lemma resolve_removed fs path l :
  resolve fs path = Some l -> l <> [] -> resolve (remove_at l fs) path = None.
Proof.
  intros Hres Hl.
  destruct (resolve (remove_at l fs) path) as [l'|] eqn:Hres'; [|reflexivity].
  exfalso. unfold resolve in *.
  destruct (OsPath.isabs path); [|discriminate].
  assert (l = l') by exact (walk_same_end _ _ _ _ _ _ Hres Hres'). subst l'.
  apply (walk_end_exists _ _ [] l) in Hres'; [|discriminate].
  apply Hres'. now apply get_remove_at.
Qed.

Lemma run_rm_return e fs path fs1 :
  run_rm e fs path = (Return tt, fs1) -> path_exists fs1 path = false.
Proof.
  unfold run_rm, path_exists, node_at.
  destruct (rm_faults e path) as [[code rest|m]|]; try discriminate.
  destruct (resolve fs path) as [l|] eqn:Hres.
  - destruct (dot_or_dotdot path || Nat.eqb (List.length l) 0)%bool eqn:Hno;
      [discriminate|].
    apply orb_false_iff in Hno. destruct Hno as [_ Hl].
    intros H. apply (f_equal snd) in H. cbn [snd] in H. subst fs1.
    rewrite (resolve_removed _ _ _ Hres); [reflexivity|].
    intros ->. discriminate.
  - intros H. apply (f_equal snd) in H. cbn [snd] in H. subst fs1.
    now rewrite Hres.
Qed.

Lemma remove_existing_return e fs path fs1 :
  remove_existing e fs path = (Return tt, fs1) -> path_exists fs1 path = false.
Proof.
  unfold remove_existing.
  destruct (path_exists fs path) eqn:Hex.
  - apply run_rm_return.
  - intros H; inversion H; subst fs1. exact Hex.
Qed.

(** *** A clone that succeeds *)

Lemma run_git_clone_ok e fs url path timeout c fs' :
  OsPath.isabs path = true ->
  run_git_clone e fs url path timeout = (Return c, fs') -> returncode c = 0%Z ->
  exists seconds tree,
    remote e url = Ran seconds (Checkout tree)
    /\ (seconds <= timeout)%N
    /\ node_at fs' path = Some (Dir tree).
Proof.
  intros Habs. unfold run_git_clone.
  destruct (remote e url) as [seconds outcome|code err|m]; try discriminate.
  - destruct (prepare_destination fs (strip_trailing_slashes path))
      as [fs1 l existed|fs1 err] eqn:Hprep.
    + destruct (timeout <? seconds)%N eqn:Htime; [discriminate|].
      apply N.ltb_ge in Htime.
      destruct outcome as [tree|code err].
      * intros H _. apply (f_equal snd) in H. cbn [snd] in H. subst fs'.
        exists seconds, tree. split; [reflexivity|]. split; [exact Htime|].
        destruct (prepare_ready _ _ _ _ _ (eq_trans (strip_abs path) Habs) Hprep)
          as [Hres Hget].
        apply node_at_strip. now apply node_at_filled.
      * intros H. apply (f_equal fst) in H. cbn [fst] in H.
        injection H as <-. cbn [returncode]. destruct code; discriminate.
    + intros H. apply (f_equal fst) in H. cbn [fst] in H.
      injection H as <-. discriminate.
  - intros H. apply (f_equal fst) in H. cbn [fst] in H.
    injection H as <-. cbn [returncode]. destruct code; discriminate.
Qed.

Lemma clone_repo_ok e fs data :
  status (fst (clone_repo e fs data)) = 200 ->
  exists repo_url owner repo seconds tree fs1,
    c_repo_url data = Some repo_url /\ c_owner data = Some owner
    /\ c_repo data = Some repo
    /\ remove_existing e fs (repo_path owner repo) = (Return tt, fs1)
    /\ path_exists fs1 (repo_path owner repo) = false
    /\ remote e (clone_url repo_url (c_token data)) = Ran seconds (Checkout tree)
    /\ snd (clone_repo e fs data)
       = snd (run_git_clone e fs1 (clone_url repo_url (c_token data))
                (repo_path owner repo) 300)
    /\ node_at (snd (clone_repo e fs data)) (repo_path owner repo) = Some (Dir tree).
Proof.
  unfold clone_repo.
  destruct (c_repo_url data) as [[|uc us]|]; try discriminate.
  destruct (c_owner data) as [[|oc os]|]; try discriminate.
  destruct (c_repo data) as [[|rc rs]|]; try discriminate.
  unfold clone_attempt.
  destruct (remove_existing e fs (repo_path (String oc os) (String rc rs)))
    as [[[]|x] fs1] eqn:Hrem.
  2:{ destruct x; discriminate. }
  destruct (run_git_clone e fs1 (clone_url (String uc us) (c_token data))
              (repo_path (String oc os) (String rc rs)) 300) as [[c|x] fs2] eqn:Hgit.
  2:{ destruct x; discriminate. }
  destruct (returncode c =? 0)%Z eqn:Hrc; cbn [negb fst snd status]; [|discriminate].
  intros _. apply Z.eqb_eq in Hrc.
  destruct (run_git_clone_ok _ _ _ _ _ _ _ (repo_path_abs _ _) Hgit Hrc)
    as (seconds & tree & Hrem' & _ & Hnode).
  exists (String uc us), (String oc os), (String rc rs), seconds, tree, fs1.
  repeat split; try assumption.
  - exact (remove_existing_return _ _ _ _ Hrem).
  - now rewrite Hgit.
Qed.

End Commands.

(** C7. After two clones for one key that both answer 200, the directory of
    the key is the tree of the second checkout and nothing else; the second
    [git clone] runs on a file system in which the directory left by the
    first does not exist any more. *)
Theorem reclone_replaces_snapshot e1 e2 fs owner repo url1 token1 url2 token2 :
  let path := repo_path owner repo in
  let first :=
    clone_repo e1 fs
      {| c_repo_url := Some url1; c_owner := Some owner;
         c_repo := Some repo; c_token := token1 |} in
  let second :=
    clone_repo e2 (snd first)
      {| c_repo_url := Some url2; c_owner := Some owner;
         c_repo := Some repo; c_token := token2 |} in
  status (fst first) = 200 -> status (fst second) = 200 ->
  exists tree1 tree2 seconds1 seconds2 cleared,
    remote e1 (clone_url url1 token1) = Ran seconds1 (Checkout tree1)
    /\ node_at (snd first) path = Some (Dir tree1)
    /\ remove_existing e2 (snd first) path = (Return tt, cleared)
    /\ path_exists cleared path = false
    /\ remote e2 (clone_url url2 token2) = Ran seconds2 (Checkout tree2)
    /\ snd second = snd (run_git_clone e2 cleared (clone_url url2 token2) path 300)
    /\ node_at (snd second) path = Some (Dir tree2).
Proof.
  intros path first second H1 H2.
  destruct (clone_repo_ok _ _ _ H1)
    as (u1 & o1 & r1 & seconds1 & tree1 & mid1
        & Hu1 & Ho1 & Hr1 & _ & _ & Hrem1 & _ & Hnode1).
  destruct (clone_repo_ok _ _ _ H2)
    as (u2 & o2 & r2 & seconds2 & tree2 & cleared
        & Hu2 & Ho2 & Hr2 & Hrm & Hgone & Hrem2 & Hrun & Hnode2).
  cbn [c_repo_url c_owner c_repo c_token] in *.
  inversion Hu1; inversion Ho1; inversion Hr1;
    inversion Hu2; inversion Ho2; inversion Hr2; subst.
  exists tree1, tree2, seconds1, seconds2, cleared. repeat split; assumption.
Qed.

Lemma reclone_replaces_snapshot_witness :
  exists tree1 cleared,
    node_at
      (snd (clone_repo two_remotes only_repos
              {| c_repo_url := Some "https://host/one"; c_owner := Some "a";
                 c_repo := Some "b"; c_token := None |}))
      (repo_path "a" "b") = Some (Dir tree1)
    /\ path_exists cleared (repo_path "a" "b") = false
    /\ node_at
         (snd (clone_repo two_remotes
                 (snd (clone_repo two_remotes only_repos
                         {| c_repo_url := Some "https://host/one"; c_owner := Some "a";
                            c_repo := Some "b"; c_token := None |}))
                 {| c_repo_url := Some "https://host/two"; c_owner := Some "a";
                    c_repo := Some "b"; c_token := Some "tok" |}))
         (repo_path "a" "b") = Some (Dir second_tree).
Proof.
  destruct (reclone_replaces_snapshot two_remotes two_remotes only_repos
              "a" "b" "https://host/one" None "https://host/two" (Some "tok"))
    as (tree1 & tree2 & seconds1 & seconds2 & cleared
        & _ & Hn1 & _ & Hgone & Hr2 & _ & Hn2);
    [vm_compute; reflexivity | vm_compute; reflexivity |].
  exists tree1, cleared.
  split; [exact Hn1|]. split; [exact Hgone|].
  assert (Htree : tree2 = second_tree) by (vm_compute in Hr2; injection Hr2 as _ <-; reflexivity).
  rewrite <- Htree. exact Hn2.
Defined.


(** ** The listing *)

Section Substrings.

Lemma contains_unfold (sub s : string) :
  contains sub s
  = (String.prefix sub s
     || match s with
        | EmptyString => false
        | String _ rest => contains sub rest
        end)%bool.
Proof. destruct s; reflexivity. Qed.

Lemma contains_app_r (sub a b : string) :
  contains sub b = true -> contains sub (a ++ b) = true.
Proof.
  intros H. induction a as [|c a IH]; [exact H|].
  rewrite contains_unfold. cbn [append]. rewrite IH. apply orb_true_r.
Qed.

Lemma contains_app_l (sub a b : string) :
  contains sub a = true -> contains sub (a ++ b) = true.
Proof.
  induction a as [|c a IH]; intros H.
  - rewrite contains_unfold in H. rewrite orb_false_r in H.
    destruct sub; [|discriminate]. rewrite contains_unfold.
    now rewrite prefix_empty.
  - rewrite contains_unfold in H. apply orb_true_iff in H.
    rewrite contains_unfold. apply orb_true_iff. destruct H as [H|H].
    + left. now apply prefix_append.
    + right. cbn [append]. now apply IH.
Qed.

Lemma contains_self (s : string) : contains s s = true.
Proof.
  rewrite contains_unfold. apply orb_true_iff. left.
  induction s as [|c s IH]; [reflexivity|].
  simpl. destruct (ascii_dec c c); [exact IH | congruence].
Qed.

(** a name among those joined is found in the joined path *)
Lemma join_mentions (e : string) (xs ys : list string) :
  contains e (PyStr.join "/" (xs ++ e :: ys)%list) = true.
Proof.
  induction xs as [|x xs IH].
  - cbn [app]. destruct ys as [|y ys].
    + apply contains_self.
    + change (PyStr.join "/" (e :: y :: ys))
        with (e ++ "/" ++ PyStr.join "/" (y :: ys)).
      apply contains_app_l, contains_self.
  - assert (Hcons : PyStr.join "/" ((x :: xs) ++ e :: ys)%list
                    = x ++ "/" ++ PyStr.join "/" (xs ++ e :: ys)%list).
    { cbn [app PyStr.join]. now destruct (xs ++ e :: ys)%list eqn:Hl;
        [destruct xs; discriminate|]. }
    rewrite Hcons. now apply contains_app_r, contains_app_r.
Qed.

End Substrings.

Section Trees.

Lemma well_formed_dir (es : list (string * node)) :
  Spec.well_formed (Dir es) ->
  NoDup (map fst es)
  /\ Forall (fun e => Spec.valid_name (fst e) = true /\ Spec.well_formed (snd e)) es.
Proof.
  intros [Hnd Hall]. split; [exact Hnd|]. clear Hnd.
  induction es as [|[name child] es IH]; [constructor|].
  destruct Hall as (Hname & Hchild & Hrest).
  constructor; [split; assumption | now apply IH].
Qed.

Lemma lookup_entry_in (es : list (string * node)) (name : string) (child : node) :
  NoDup (map fst es) -> In (name, child) es -> lookup_entry name es = Some child.
Proof.
  induction es as [|[k v] es IH]; intros Hnd Hin; [contradiction|].
  cbn [map fst] in Hnd. inversion Hnd as [|? ? Hk Hrest]; subst.
  cbn [lookup_entry].
  destruct Hin as [Heq|Hin].
  - inversion Heq; subst. now rewrite String.eqb_refl.
  - destruct (String.eqb k name) eqn:Hkn.
    + apply String.eqb_eq in Hkn. subst k.
      exfalso. apply Hk. apply in_map_iff. now exists (name, child).
    + now apply IH.
Qed.

(** every file below a directory named [.git] has [.git] in its path *)
Lemma all_files_below_git (n : node) :
  forall xs ys,
    Forall (fun f => Spec.mentions_git f = true)
      (Spec.all_files (xs ++ ".git" :: ys)%list n).
Proof.
  induction n as [err data|es IH] using node_induction; intros xs ys.
  - constructor.
  - cbn [Spec.all_files]. apply Forall_app. split.
    + clear IH. induction es as [|[name child] es IHes]; [constructor|].
      cbn [flat_map]. apply Forall_app. split; [|exact IHes].
      destruct child as [err data|sub]; [|constructor].
      constructor; [|constructor].
      unfold Spec.mentions_git. cbn [fst].
      rewrite <- app_assoc. apply join_mentions.
    + induction IH as [|[name child] es Hchild Hrest IHes]; [constructor|].
      cbn [flat_map]. apply Forall_app. split; [|exact IHes].
      destruct (is_dir child); [|constructor].
      rewrite <- app_assoc. apply Hchild.
Qed.

Lemma filter_none {A : Type} (f : A -> bool) (l : list A) :
  Forall (fun x => f x = false) l -> filter f l = [].
Proof.
  induction 1 as [|x l Hx Hl IH]; [reflexivity|].
  cbn [filter]. now rewrite Hx.
Qed.

End Trees.

Section Walk.

Local Open Scope list_scope.

Variables (cwd : string) (fs : node) (path : string) (top_loc : loc).

Hypothesis path_abs : OsPath.isabs path = true.
Hypothesis path_resolves : resolve fs path = Some top_loc.

#[local] Abbreviation visits := (Spec.visits fs path).

Lemma visits_top : visits path [] top_loc.
Proof.
  repeat split; try assumption; [now rewrite app_nil_r | constructor].
Qed.

Lemma walk_step_skip (acc : option loc) (n : string) :
  walk_step fs (walk_step fs acc "") n = walk_step fs acc n.
Proof.
  destruct acc as [l|]; [|reflexivity].
  change (walk_step fs (Some l) "") with (if is_dir_at fs l then Some l else None).
  destruct (is_dir_at fs l) eqn:Hdir; [reflexivity|].
  unfold walk_step. now rewrite Hdir.
Qed.

Lemma visits_child root pre here name :
  visits root pre here -> Spec.valid_name name = true ->
  is_dir_at fs here = true -> get fs (here ++ [name]) <> None ->
  visits (OsPath.join root name) (pre ++ [name]) (here ++ [name]).
Proof.
  intros (Habs & Hcomps & Hres & Hpre) Hname Hdir Hchild.
  destruct (join_name root name Habs Hname) as [Habs' _].
  repeat split.
  - exact Habs'.
  - now rewrite norm_comps_join, Hcomps, app_assoc.
  - unfold resolve in *. rewrite Habs in Hres. rewrite Habs'.
    rewrite (fold_join_name _ _ _ _ (fun acc => walk_step_skip acc name) Habs Hname).
    rewrite Hres. destruct (valid_name_inv name Hname) as (H0 & H1 & H2 & _).
    apply String.eqb_neq in H0, H1, H2.
    unfold walk_step, special. rewrite Hdir, H0, H1, H2. cbn [orb].
    destruct (get fs (here ++ [name])) eqn:Hget; [reflexivity | now elim Hchild].
  - apply Forall_app. split; [exact Hpre | now repeat constructor].
Qed.

Lemma relpath_of_file root pre here name :
  visits root pre here -> Spec.valid_name name = true ->
  OsPath.relpath cwd (OsPath.join root name) path
  = PyStr.join "/" (pre ++ [name]).
Proof.
  intros (Habs & Hcomps & _ & Hpre) Hname.
  destruct (join_name root name Habs Hname) as [Habs' _].
  apply relpath_below; try assumption.
  - now rewrite norm_comps_join, Hcomps, app_assoc.
  - now destruct pre.
  - apply Forall_app. split; [exact Hpre | now repeat constructor].
Qed.

Lemma stat_of_file root pre here name err data :
  visits root pre here -> Spec.valid_name name = true ->
  is_dir_at fs here = true -> get fs (here ++ [name]) = Some (File err data) ->
  stat_size fs (OsPath.join root name) = Return (List.length data).
Proof.
  intros Hv Hname Hdir Hfile.
  assert (Hne : get fs (here ++ [name]) <> None) by congruence.
  destruct (visits_child _ _ _ _ Hv Hname Hdir Hne) as (_ & _ & Hres & _).
  unfold stat_size, node_at. now rewrite Hres, Hfile.
Qed.

Lemma listed_app a b : Spec.listed (a ++ b) = Spec.listed a ++ Spec.listed b.
Proof. unfold Spec.listed. now rewrite filter_app, map_app. Qed.

(** the files of one directory *)
Lemma list_files_of_dir root pre here :
  visits root pre here -> is_dir_at fs here = true ->
  forall es,
    Forall (fun e => Spec.valid_name (fst e) = true
                     /\ get fs (here ++ [fst e]) = Some (snd e)) es ->
    forall acc,
      fold_left (list_file cwd fs path root) (file_names es) (Return acc)
      = Return
          (acc ++ Spec.listed
             (flat_map
                (fun e =>
                   let '(name, child) := e in
                   match child with
                   | File _ data => [(pre ++ [name], List.length data)]
                   | Dir _ => []
                   end)
                es)).
Proof.
  intros Hv Hdir. induction 1 as [|[name child] es [Hname Hget] Hrest IH]; intros acc.
  - cbn. now rewrite app_nil_r.
  - cbn [fst snd] in *. cbn [flat_map]. rewrite listed_app.
    destruct child as [err data|sub].
    + change (file_names ((name, File err data) :: es))
        with (name :: file_names es).
      cbn [fold_left].
      assert (Hstep : list_file cwd fs path root (Return acc) name
                      = Return (acc ++ Spec.listed [(pre ++ [name], List.length data)])).
      { unfold list_file.
        rewrite (relpath_of_file _ _ _ _ Hv Hname).
        rewrite (stat_of_file _ _ _ _ _ _ Hv Hname Hdir Hget).
        unfold Spec.listed, Spec.mentions_git. cbn [filter fst].
        destruct (contains ".git" (PyStr.join "/" (pre ++ [name]))); cbn.
        - now rewrite app_nil_r.
        - reflexivity. }
      rewrite Hstep, IH, app_assoc. reflexivity.
    + change (file_names ((name, Dir sub) :: es)) with (file_names es).
      rewrite IH. reflexivity.
Qed.

(** the whole walk below one directory *)
Lemma list_files_of_tree (n : node) :
  forall root pre here acc,
    Spec.well_formed n -> get fs here = Some n -> visits root pre here ->
    fold_left (visit_body cwd fs path) (os_walk keep_dir root n) (Return acc)
    = Return (acc ++ Spec.listed (Spec.all_files pre n)).
Proof.
  induction n as [err data|es IH] using node_induction;
    intros root pre here acc Hwf Hhere Hv.
  - cbn. now rewrite app_nil_r.
  - destruct (well_formed_dir es Hwf) as [Hnd Hall].
    assert (Hdir : is_dir_at fs here = true)
      by (unfold is_dir_at; now rewrite Hhere).
    assert (Hchildren :
      Forall (fun e => Spec.valid_name (fst e) = true
                       /\ get fs (here ++ [fst e]) = Some (snd e)) es).
    { apply Forall_forall. intros [name child] Hin.
      rewrite Forall_forall in Hall. destruct (Hall _ Hin) as [Hname _].
      split; [exact Hname|]. cbn [fst snd].
      rewrite get_app, Hhere. cbn [get].
      now rewrite (lookup_entry_in es name child Hnd Hin). }
    cbn [os_walk Spec.all_files fold_left]. rewrite listed_app, app_assoc.
    unfold visit_body at 2. cbn [fst snd].
    rewrite (list_files_of_dir root pre here Hv Hdir es Hchildren).
    generalize (acc ++
      Spec.listed
        (flat_map
           (fun e => let '(name, child) := e in
              match child with
              | File _ data => [(pre ++ [name], List.length data)]
              | Dir _ => []
              end) es)).
    clear Hnd Hwf Hhere. revert Hall Hchildren.
    induction IH as [|[name child] rest Hchild Hrest IHrest];
      intros Hall Hchildren acc'.
    + cbn. now rewrite app_nil_r.
    + inversion Hall as [|? ? [Hname Hwfc] Hall']; subst.
      inversion Hchildren as [|? ? [_ Hget] Hchildren']; subst.
      cbn [fst snd] in *. cbn [flat_map].
      rewrite fold_left_app, listed_app, app_assoc.
      destruct child as [err data|sub].
      * cbn [is_dir andb fold_left]. cbn. rewrite app_nil_r.
        now apply IHrest.
      * cbn [is_dir andb]. unfold keep_dir.
        destruct (String.eqb name ".git") eqn:Hgit; cbn [negb].
        -- apply String.eqb_eq in Hgit. subst name.
           cbn [fold_left].
           replace (Spec.listed (Spec.all_files (pre ++ [".git"]) (Dir sub)))
             with (@nil file_record).
           ++ rewrite app_nil_r. now apply IHrest.
           ++ symmetry. unfold Spec.listed. rewrite filter_none; [reflexivity|].
              eapply Forall_impl; [|apply (all_files_below_git (Dir sub) pre [])].
              intros f Hf. now rewrite Hf.
        -- fold keep_dir.
           rewrite (Hchild (OsPath.join root name) (pre ++ [name]) (here ++ [name])
                      acc' Hwfc Hget).
           ++ now apply IHrest.
           ++ apply visits_child; try assumption. congruence.
Qed.

End Walk.

(** C4. The listing leaves out files that are not inside a directory
    named [.git]: of the snapshot [/repos/a_b], whose files outside [.git]
    are [README.md], [.gitignore], [.github/ci.yml], [src/main.py] and
    [src/locked], [list_files] returns three records; [.gitignore] and
    [.github/ci.yml] are missing, because the guard of the loop looks for
    [.git] anywhere in the relative path. *)
Theorem listing_leaves_out_gitignore :
  exists top,
    node_at two_snapshots (repo_path "a" "b") = Some top
    /\ Spec.tracked_listing top
       = [{| fr_path := "README.md"; fr_size := 5 |};
          {| fr_path := ".gitignore"; fr_size := 3 |};
          {| fr_path := ".github/ci.yml"; fr_size := 8 |};
          {| fr_path := "src/main.py"; fr_size := 8 |};
          {| fr_path := "src/locked"; fr_size := 0 |}]
    /\ list_files "/app" two_snapshots (Some "a") (Some "b")
       = {| status := 200;
            payload := FileList [{| fr_path := "README.md"; fr_size := 5 |};
                                 {| fr_path := "src/main.py"; fr_size := 8 |};
                                 {| fr_path := "src/locked"; fr_size := 0 |}] |}
    /\ list_files "/app" two_snapshots (Some "a") (Some "b")
       <> {| status := 200; payload := FileList (Spec.tracked_listing top) |}.
Proof.
  eexists. split; [vm_compute; reflexivity|].
  split; [vm_compute; reflexivity|].
  split; [vm_compute; reflexivity|].
  vm_compute. discriminate.
Qed.

(** * Further properties of the handlers *)

(** ** Parameters *)

Section Parameters.

Variable cwd : string.
Variable fits : list byte -> Z -> bool.

(** X1. [clone_repo] answers 400 exactly when one of [repo_url], [owner], [repo]
    is missing or empty, and then neither [rm] nor [git] is run: the file
    system is as it was. *)
Theorem clone_missing_parameters (e : env) (fs : node) (data : clone_request) :
  if Derived.clone_parameters_present data
  then status (fst (clone_repo e fs data)) <> 400
  else clone_repo e fs data
       = ({| status := 400; payload := Error "Missing required parameters" |}, fs).
Proof.
  unfold Derived.clone_parameters_present, clone_repo.
  destruct (c_repo_url data) as [[|uc us]|]; cbn [truthy andb]; try reflexivity.
  destruct (c_owner data) as [[|oc os]|]; cbn [truthy andb]; try reflexivity.
  destruct (c_repo data) as [[|rc rs]|]; cbn [truthy andb]; try reflexivity.
  unfold clone_attempt.
  destruct (remove_existing e fs _) as [[[]|x] fs1].
  - destruct (run_git_clone e fs1 _ _ 300) as [[c|x] fs2].
    + destruct (negb (returncode c =? 0)%Z); cbn; discriminate.
    + destruct x; cbn; discriminate.
  - destruct x; cbn; discriminate.
Qed.

(** X2. The three readers answer 400 [Missing owner or repo parameter] when
    [owner] or [repo] is missing or empty, whatever else the request holds;
    with both there, [list_files] and [analyze_files] never answer 400. *)
Theorem read_missing_parameters (fs : node) (owner repo : option string)
    (file_path : string) (paths : list string) (max_size : option Z) :
  let batch := {| a_owner := owner; a_repo := repo;
                  a_file_paths := paths; a_max_size := max_size |} in
  let missing :=
    {| status := 400; payload := Error "Missing owner or repo parameter" |} in
  if (truthy owner && truthy repo)%bool
  then status (list_files cwd fs owner repo) <> 400
       /\ status (analyze_files cwd fits fs batch) <> 400
  else list_files cwd fs owner repo = missing
       /\ get_file cwd fs file_path owner repo = missing
       /\ analyze_files cwd fits fs batch = missing.
Proof.
  intros batch missing. subst batch missing.
  unfold list_files, get_file, analyze_files; cbn [a_owner a_repo].
  destruct owner as [[|oc os]|]; cbn [truthy andb]; try (repeat split; reflexivity).
  destruct repo as [[|rc rs]|]; cbn [truthy andb]; try (repeat split; reflexivity).
  split.
  - destruct (path_exists fs _); cbn [negb]; [|discriminate].
    destruct (list_loop cwd fs _); cbn; discriminate.
  - destruct (path_exists fs _); cbn; discriminate.
Qed.

End Parameters.

(** ** Paths below the snapshot directory *)

Section RelativePaths.

#[local] Abbreviation sep := OsPath.sep.

(** [join] with a relative path: the components of the result are those of
    the directory, a trailing empty one dropped, and those of the path *)
Lemma join_relative (p file_path : string) :
  OsPath.isabs p = true -> startswith file_path "/" = false ->
  OsPath.isabs (OsPath.join p file_path) = true
  /\ exists xs,
       (split sep p = xs \/ split sep p = (xs ++ [""])%list)
       /\ split sep (OsPath.join p file_path) = (xs ++ split sep file_path)%list.
Proof.
  intros Habs Hrel. unfold OsPath.join. rewrite Hrel.
  assert (Hp : String.eqb p "" = false).
  { apply String.eqb_neq. intros ->. discriminate. }
  rewrite Hp. cbn [orb].
  destruct (endswith_char p sep) eqn:Hend.
  - split; [now apply isabs_app|].
    destruct (endswith_sep_inv p Hend) as [q ->].
    exists (split sep q). split.
    + right. now rewrite split_app_sep.
    + rewrite append_assoc_str. cbn [append]. now rewrite split_app_sep.
  - split; [now apply isabs_app|].
    exists (split sep p). split; [now left|].
    cbn [append]. now rewrite split_app_sep.
Qed.

(** a loop over the components that passes over empty ones sees
    [join p file_path] as [p] followed by [file_path] *)
Lemma fold_join_relative {A : Type} (f : A -> string -> A) (init : A)
    (p file_path : string) :
  (forall acc c, f (f acc "") c = f acc c) ->
  OsPath.isabs p = true -> startswith file_path "/" = false ->
  fold_left f (split sep (OsPath.join p file_path)) init
  = fold_left f (split sep file_path) (fold_left f (split sep p) init).
Proof.
  intros Hskip Habs Hrel.
  destruct (join_relative p file_path Habs Hrel) as (_ & xs & [Hxs|Hxs] & Hj);
    rewrite Hj, Hxs, !fold_left_app; [reflexivity|].
  cbn [fold_left].
  pose proof (split_not_nil file_path) as Hne.
  destruct (split sep file_path) as [|c cs]; [congruence|].
  cbn [fold_left]. now rewrite Hskip.
Qed.

Lemma walk_step_skip_any (fs : node) (acc : option loc) (c : string) :
  walk_step fs (walk_step fs acc "") c = walk_step fs acc c.
Proof.
  destruct acc as [l|]; [|reflexivity].
  change (walk_step fs (Some l) "") with (if is_dir_at fs l then Some l else None).
  destruct (is_dir_at fs l) eqn:Hdir; [reflexivity|].
  unfold walk_step. now rewrite Hdir.
Qed.

(** the kernel reaches [join p file_path] through [p] *)
Lemma resolve_join (fs : node) (p file_path : string) :
  OsPath.isabs p = true -> startswith file_path "/" = false ->
  resolve fs (OsPath.join p file_path)
  = fold_left (walk_step fs) (split sep file_path) (resolve fs p).
Proof.
  intros Habs Hrel. unfold resolve.
  destruct (join_relative p file_path Habs Hrel) as [Habs' _].
  rewrite Habs, Habs'.
  apply fold_join_relative; try assumption. apply walk_step_skip_any.
Qed.

Lemma resolve_join_missing (fs : node) (p file_path : string) :
  OsPath.isabs p = true -> startswith file_path "/" = false ->
  path_exists fs p = false -> path_exists fs (OsPath.join p file_path) = false.
Proof.
  intros Habs Hrel Hmiss. unfold path_exists, node_at in *.
  rewrite (resolve_join fs p file_path Habs Hrel).
  destruct (resolve fs p) as [l|] eqn:Hres.
  - exfalso. unfold resolve in Hres. rewrite Habs in Hres.
    apply (walk_end_exists fs _ [] l) in Hres; [|discriminate].
    destruct (get fs l); [discriminate | congruence].
  - now rewrite walk_none.
Qed.

End RelativePaths.

(** ** A key without a snapshot *)

Section NoSnapshot.

Variable cwd : string.
Variable fits : list byte -> Z -> bool.

(** X3. With no directory for the key, [list_files] and [analyze_files] answer
    404 [Repository not cloned] whatever is asked for, and [get_file] serves
    nothing: for a relative [file_path] it answers 404 [File not found], or
    400 [Invalid file path] when the path fails the check. *)
Theorem reads_without_snapshot (fs : node) (owner repo file_path : string)
    (paths : list string) (max_size : option Z) :
  owner <> "" -> repo <> "" ->
  path_exists fs (repo_path owner repo) = false ->
  startswith file_path "/" = false ->
  let not_cloned := {| status := 404; payload := Error "Repository not cloned" |} in
  list_files cwd fs (Some owner) (Some repo) = not_cloned
  /\ analyze_files cwd fits fs
       {| a_owner := Some owner; a_repo := Some repo;
          a_file_paths := paths; a_max_size := max_size |} = not_cloned
  /\ get_file cwd fs file_path (Some owner) (Some repo)
     = if inside_repo cwd (repo_path owner repo)
            (OsPath.join (repo_path owner repo) file_path)
       then {| status := 404; payload := Error "File not found" |}
       else {| status := 400; payload := Error "Invalid file path" |}.
Proof.
  intros Ho Hr Hmiss Hrel not_cloned. subst not_cloned.
  destruct owner as [|oc os]; [contradiction|].
  destruct repo as [|rc rs]; [contradiction|].
  unfold list_files, analyze_files, get_file; cbn [a_owner a_repo].
  rewrite Hmiss. cbn [negb].
  repeat split.
  destruct (inside_repo cwd _ _); cbn [negb]; [|reflexivity].
  now rewrite (resolve_join_missing fs _ file_path (repo_path_abs _ _) Hrel Hmiss).
Qed.

End NoSnapshot.

Lemma reads_without_snapshot_witness :
  list_files "/app" only_repos (Some "a") (Some "b")
  = {| status := 404; payload := Error "Repository not cloned" |}
  /\ get_file "/app" only_repos "README.md" (Some "a") (Some "b")
     = {| status := 404; payload := Error "File not found" |}.
Proof.
  destruct (reads_without_snapshot "/app" roomy only_repos "a" "b" "README.md" [] None)
    as (Hlist & _ & Hget); try discriminate; try reflexivity.
  split; [exact Hlist | exact Hget].
Defined.

(** ** More on the batch reader *)

Section BatchBounds.

Variable cwd : string.
Variable fits : list byte -> Z -> bool.

(** an entry with an error has no content, and the content of an entry is
    within a limit that is not negative *)
Lemma analyze_loop_bound (fs : node) (root : string) (limit : Z) (paths : list string) :
  forall results,
    Forall (fun r => (e_error r <> None -> e_content r = [])
                     /\ ((0 <= limit)%Z ->
                         (Z.of_nat (List.length (e_content r)) <= limit)%Z)) results ->
    Forall (fun r => (e_error r <> None -> e_content r = [])
                     /\ ((0 <= limit)%Z ->
                         (Z.of_nat (List.length (e_content r)) <= limit)%Z))
      (fold_left (analyze_file cwd fits fs root limit) paths results).
Proof.
  induction paths as [|p paths IH]; intros results Hres; [exact Hres|].
  cbn [fold_left]. apply IH.
  destruct (analyze_file_appends cwd fits fs root limit results p) as (r & -> & _ & Hc).
  apply Forall_app. split; [exact Hres|].
  constructor; [|constructor].
  destruct r as [rp rc re]. cbn [e_content e_error] in *.
  destruct (Spec.readable cwd fs root p) as [data|].
  - destruct (read fits data limit) as [content|x] eqn:Hread; destruct Hc as [-> ->].
    + split; [congruence|]. intros Hpos. exact (read_length fits data limit content Hpos Hread).
    + split; [reflexivity|]. cbn. lia.
  - destruct Hc as [-> _]. split; [reflexivity|]. cbn. lia.
Qed.

(** X5. In a batch answer an entry that has an error has no content, and when
    [max_size] (8000 if the request names none) is not negative no entry
    has more characters than [max_size]. *)
Theorem batch_content_bound (fs : node) (data : analyze_request)
    (results : list entry) :
  let limit := match a_max_size data with Some n => n | None => 8000%Z end in
  payload (analyze_files cwd fits fs data) = Analysis results ->
  Forall (fun r => (e_error r <> None -> e_content r = [])
                   /\ ((0 <= limit)%Z ->
                       (Z.of_nat (List.length (e_content r)) <= limit)%Z)) results.
Proof.
  intros limit. unfold analyze_files. fold limit.
  destruct (a_owner data) as [[|oc os]|]; try discriminate.
  destruct (a_repo data) as [[|rc rs]|]; try discriminate.
  destruct (path_exists fs _); cbn [negb payload]; [|discriminate].
  intros H. injection H as <-.
  apply analyze_loop_bound. constructor.
Qed.

(** X6. The two readers agree.  With a snapshot present, the batch entry of a
    path [get_file] serves holds what [f.read(max_size)] keeps of the
    content [get_file] returns, and no error, provided the read of
    [max_size] characters is carried out; if it is not, the entry has the
    error of the read and no content.  The entry of a path [get_file] turns
    down has an error and no content. *)
Theorem batch_agrees_with_get_file (fs : node) (owner repo file_path : string)
    (max_size : option Z) :
  owner <> "" -> repo <> "" ->
  path_exists fs (repo_path owner repo) = true ->
  let limit := match max_size with Some n => n | None => 8000%Z end in
  exists r,
    analyze_files cwd fits fs
      {| a_owner := Some owner; a_repo := Some repo;
         a_file_paths := [file_path]; a_max_size := max_size |}
    = {| status := 200; payload := Analysis [r] |}
    /\ e_path r = file_path
    /\ match payload (get_file cwd fs file_path (Some owner) (Some repo)) with
       | FileContent p content =>
           p = file_path
           /\ exists data,
                Spec.readable cwd fs (repo_path owner repo) file_path = Some data
                /\ content = read_all data
                /\ if Derived.granted fits data limit
                   then e_error r = None /\ e_content r = Derived.capped limit content
                   else e_content r = []
                        /\ e_error r
                           = Some (if fits_ssize_t limit then ""
                                   else "cannot fit 'int' into an index-sized integer")
       | _ => e_error r <> None /\ e_content r = []
       end.
Proof.
  intros Ho Hr Hex limit.
  destruct owner as [|oc os]; [contradiction|].
  destruct repo as [|rc rs]; [contradiction|].
  unfold analyze_files, get_file, analyze_file, Spec.readable;
    cbn [a_owner a_repo a_file_paths a_max_size fold_left].
  rewrite Hex. cbn [negb]. fold limit.
  destruct (inside_repo cwd _ _); cbn [negb andb].
  2:{ eexists. repeat split; cbn; congruence. }
  destruct (path_exists fs (OsPath.join _ file_path)); cbn [negb orb andb].
  2:{ eexists. repeat split; cbn; congruence. }
  destruct (isfile fs (OsPath.join _ file_path)); cbn [negb].
  2:{ eexists. repeat split; cbn; congruence. }
  destruct (open_file fs (OsPath.join _ file_path)) as [data|x].
  2:{ eexists. repeat split; cbn; congruence. }
  unfold read, Derived.granted, Derived.capped, read_all.
  destruct (fits_ssize_t limit); cbn [negb andb].
  - destruct (limit <? 0)%Z eqn:Hneg.
    + assert (Hsmall : (limit <=? chunk_size)%Z = true)
        by (apply Z.leb_le; apply Z.ltb_lt in Hneg; unfold chunk_size; lia).
      rewrite Hsmall. cbn [orb].
      eexists. split; [reflexivity|]. split; [reflexivity|]. cbn [payload e_error e_content].
      split; [reflexivity|]. exists data. repeat split.
    + destruct ((limit <=? chunk_size)%Z || fits data limit)%bool eqn:Hg;
        eexists; (split; [reflexivity|]); (split; [reflexivity|]);
        cbn [payload e_error e_content];
        (split; [reflexivity|]); exists data; rewrite Hg; repeat split.
  - eexists. split; [reflexivity|]. split; [reflexivity|]. cbn [payload e_error e_content].
    split; [reflexivity|]. exists data. repeat split.
Qed.

End BatchBounds.

Lemma batch_content_bound_witness :
  Forall (fun r => (e_error r <> None -> e_content r = [])
                   /\ ((0 <= 3)%Z -> (Z.of_nat (List.length (e_content r)) <= 3)%Z))
    [{| e_path := "README.md"; e_content := [104%N; 101%N; 108%N]; e_error := None |};
     {| e_path := "src"; e_content := []; e_error := Some "File not found" |}].
Proof.
  apply (batch_content_bound "/app" roomy two_snapshots
           {| a_owner := Some "a"; a_repo := Some "b";
              a_file_paths := ["README.md"; "src"]; a_max_size := Some 3%Z |}).
  vm_compute. reflexivity.
Defined.

Lemma batch_agrees_with_get_file_witness :
  (exists r,
     analyze_files "/app" roomy two_snapshots
       {| a_owner := Some "a"; a_repo := Some "b";
          a_file_paths := ["README.md"]; a_max_size := Some 2%Z |}
     = {| status := 200; payload := Analysis [r] |}
     /\ e_content r = [104%N; 101%N] /\ e_error r = None)
  /\ (exists r,
        analyze_files "/app" tight two_snapshots
          {| a_owner := Some "a"; a_repo := Some "b";
             a_file_paths := ["README.md"]; a_max_size := Some 10000%Z |}
        = {| status := 200; payload := Analysis [r] |}
        /\ e_content r = [] /\ e_error r = Some "").
Proof.
  split.
  - destruct (batch_agrees_with_get_file "/app" roomy two_snapshots "a" "b" "README.md"
                (Some 2%Z)) as (r & Hres & _ & Hc);
      [discriminate | discriminate | reflexivity |].
    exists r. split; [exact Hres|].
    change (payload (get_file "/app" two_snapshots "README.md" (Some "a") (Some "b")))
      with (FileContent "README.md" [104%N; 101%N; 108%N; 108%N; 111%N]) in Hc.
    destruct Hc as (_ & data & Hdata & Hcontent & Hr).
    change (Spec.readable "/app" two_snapshots (repo_path "a" "b") "README.md")
      with (Some (bytes "hello")) in Hdata.
    injection Hdata as <-.
    change (Derived.granted roomy (bytes "hello") 2) with true in Hr.
    destruct Hr as [Herr Hc]. rewrite Hc, Herr. split; reflexivity.
  - destruct (batch_agrees_with_get_file "/app" tight two_snapshots "a" "b" "README.md"
                (Some 10000%Z)) as (r & Hres & _ & Hc);
      [discriminate | discriminate | reflexivity |].
    exists r. split; [exact Hres|].
    change (payload (get_file "/app" two_snapshots "README.md" (Some "a") (Some "b")))
      with (FileContent "README.md" [104%N; 101%N; 108%N; 108%N; 111%N]) in Hc.
    destruct Hc as (_ & data & Hdata & Hcontent & Hr).
    change (Spec.readable "/app" two_snapshots (repo_path "a" "b") "README.md")
      with (Some (bytes "hello")) in Hdata.
    injection Hdata as <-.
    change (Derived.granted tight (bytes "hello") 10000) with false in Hr.
    destruct Hr as [Hc Herr]. rewrite Hc, Herr. split; reflexivity.
Defined.

(** ** More on the listing *)

Section ListingGuard.

Variable cwd : string.

#[local] Abbreviation git_free := Derived.git_free.

Lemma list_file_git_free (fs : node) (path root : string)
    (acc : result (list file_record)) (filename : string) :
  git_free acc -> git_free (list_file cwd fs path root acc filename).
Proof.
  unfold list_file. destruct acc as [files|x]; [|trivial]. intros Hfiles.
  destruct (contains ".git" (OsPath.relpath cwd (OsPath.join root filename) path))
    eqn:Hgit; [exact Hfiles|].
  destruct (stat_size fs (OsPath.join root filename)) as [size|x]; [|exact I].
  cbn [git_free] in *. apply Forall_app. split; [exact Hfiles|].
  constructor; [exact Hgit | constructor].
Qed.

Lemma visit_body_git_free (fs : node) (path : string)
    (visit : string * list string) (acc : result (list file_record)) :
  git_free acc -> git_free (visit_body cwd fs path acc visit).
Proof.
  unfold visit_body. generalize (snd visit) as names.
  intros names; revert acc. induction names as [|n names IH]; intros acc Hacc.
  - exact Hacc.
  - cbn [fold_left]. apply IH. now apply list_file_git_free.
Qed.

(** X7. Whatever the tree holds, the guard of the loop keeps every path that
    has [.git] in it out of the answer of [list_files]. *)
Theorem listing_never_mentions_git (fs : node) (owner repo : option string)
    (files : list file_record) :
  payload (list_files cwd fs owner repo) = FileList files ->
  Forall (fun r => contains ".git" (fr_path r) = false) files.
Proof.
  unfold list_files.
  destruct owner as [[|oc os]|]; try discriminate.
  destruct repo as [[|rc rs]|]; try discriminate.
  destruct (path_exists fs _); cbn [negb]; [|discriminate].
  assert (Hloop : git_free (list_loop cwd fs (repo_path (String oc os) (String rc rs)))).
  { unfold list_loop.
    generalize (os_walk_path keep_dir fs (repo_path (String oc os) (String rc rs))).
    assert (Hstart : git_free (Return [])) by constructor.
    revert Hstart. generalize (@Return (list file_record) []) as acc.
    intros acc Hacc visits; revert acc Hacc.
    induction visits as [|v visits IH]; intros acc Hacc; [exact Hacc|].
    cbn [fold_left]. apply IH. now apply visit_body_git_free. }
  destruct (list_loop cwd fs _) as [found|x]; cbn [payload]; [|discriminate].
  intros H. injection H as <-. exact Hloop.
Qed.

End ListingGuard.

Lemma listing_never_mentions_git_witness :
  Forall (fun r => contains ".git" (fr_path r) = false)
    [{| fr_path := "README.md"; fr_size := 5 |};
     {| fr_path := "src/main.py"; fr_size := 8 |};
     {| fr_path := "src/locked"; fr_size := 0 |}].
Proof.
  apply (listing_never_mentions_git "/app" two_snapshots (Some "a") (Some "b")).
  reflexivity.
Defined.

(** X19. For a snapshot whose tree is well formed, [list_files] answers 200
    with exactly one record (relative path, size in bytes) for each regular
    file below the root whose relative path does not have [.git] in it, in
    the order of the walk: the files of a directory first, then those of
    its subdirectories. *)
Theorem listing_omits_git_paths cwd fs owner repo top :
  owner <> "" -> repo <> "" ->
  node_at fs (repo_path owner repo) = Some top ->
  Spec.well_formed top ->
  list_files cwd fs (Some owner) (Some repo)
  = {| status := 200; payload := FileList (Spec.plain_listing top) |}.
Proof.
  intros Ho Hr Htop Hwf.
  destruct owner as [|oc os]; [contradiction|].
  destruct repo as [|rc rs]; [contradiction|].
  unfold list_files, list_loop, os_walk_path, path_exists.
  rewrite Htop. cbn [negb].
  unfold node_at in Htop.
  destruct (resolve fs (repo_path (String oc os) (String rc rs)))
    as [top_loc|] eqn:Hres; [|discriminate].
  assert (Habs : OsPath.isabs (repo_path (String oc os) (String rc rs)) = true).
  { unfold resolve in Hres.
    destruct (OsPath.isabs (repo_path (String oc os) (String rc rs)));
      [reflexivity | discriminate]. }
  pose proof (list_files_of_tree cwd fs _ Habs top
                (repo_path (String oc os) (String rc rs)) [] top_loc []
                Hwf Htop (visits_top fs _ top_loc Habs Hres)) as Hwalk.
  rewrite Hwalk. reflexivity.
Qed.

Lemma listing_omits_git_paths_witness :
  list_files "/app" two_snapshots (Some "a") (Some "b")
  = {| status := 200;
       payload := FileList [{| fr_path := "README.md"; fr_size := 5 |};
                            {| fr_path := "src/main.py"; fr_size := 8 |};
                            {| fr_path := "src/locked"; fr_size := 0 |}] |}.
Proof.
  rewrite (listing_omits_git_paths "/app" two_snapshots "a" "b"
             (Dir [("README.md", File None (bytes "hello"));
                   (".gitignore", File None (bytes "*.o"));
                   (".git", Dir [("config", File None (bytes "[core]"))]);
                   (".github", Dir [("ci.yml", File None (bytes "on: push"))]);
                   ("src",
                    Dir [("main.py", File None (bytes "print(1)"));
                         ("locked", File (Some "[Errno 13] Permission denied") [])])])).
  - reflexivity.
  - discriminate.
  - discriminate.
  - reflexivity.
  - cbn. repeat split; try reflexivity;
      repeat (constructor; [cbn; intuition discriminate|]); constructor.
Defined.

(** ** More on keys *)

Section Keys.

Lemma lacks_cons (c a : ascii) (s : string) :
  Derived.lacks c (String a s) = true <-> a <> c /\ Derived.lacks c s = true.
Proof.
  cbn [Derived.lacks]. rewrite andb_true_iff, negb_true_iff, Ascii.eqb_neq.
  reflexivity.
Qed.

(** the text before the first [c] and the text after it determine each
    other *)
Lemma split_at_first (c : ascii) (a1 b1 a2 b2 : string) :
  Derived.lacks c a1 = true -> Derived.lacks c a2 = true ->
  a1 ++ String c b1 = a2 ++ String c b2 -> a1 = a2 /\ b1 = b2.
Proof.
  revert a2. induction a1 as [|x a1 IH]; intros a2 H1 H2 Heq.
  - destruct a2 as [|y a2].
    + cbn in Heq. injection Heq as ->. now split.
    + cbn in Heq. injection Heq as <- _.
      apply lacks_cons in H2. now destruct H2.
  - destruct a2 as [|y a2].
    + cbn in Heq. injection Heq as -> _.
      apply lacks_cons in H1. now destruct H1.
    + cbn in Heq. injection Heq as <- Heq.
      apply lacks_cons in H1. apply lacks_cons in H2.
      destruct (IH a2 (proj2 H1) (proj2 H2) Heq) as [-> ->]. now split.
Qed.

Lemma repo_path_relative (owner repo : string) :
  startswith owner "/" = false -> owner <> "" ->
  repo_path owner repo = "/repos/" ++ owner ++ "_" ++ repo.
Proof.
  intros Hrel Hne. unfold repo_path, OsPath.join.
  destruct owner as [|c owner]; [congruence|].
  assert (Hname : startswith (String c owner ++ "_" ++ repo) "/" = false).
  { unfold startswith in *. cbn [append]. rewrite starts_with_sep in *. exact Hrel. }
  rewrite Hname. reflexivity.
Qed.

(** X9. An owner that starts with a slash takes the directory out of
    [REPO_DIR]: [os.path.join] drops [/repos], the directory of the key is
    [<owner>_<repo>] as it stands, and a clone that answers 200 names that
    path and has put there the tree the remote end delivered. *)
Theorem absolute_owner_leaves_storage_root (e : env) (fs : node)
    (repo_url owner repo : string) (token : option string) :
  startswith owner "/" = true ->
  let answer :=
    clone_repo e fs
      {| c_repo_url := Some repo_url; c_owner := Some owner;
         c_repo := Some repo; c_token := token |} in
  repo_path owner repo = owner ++ "_" ++ repo
  /\ (status (fst answer) = 200 ->
      payload (fst answer) = Cloned (owner ++ "_" ++ repo)
      /\ exists seconds tree,
           remote e (clone_url repo_url token) = Ran seconds (Checkout tree)
           /\ node_at (snd answer) (owner ++ "_" ++ repo) = Some (Dir tree)).
Proof.
  intros Habs answer.
  assert (Hpath : repo_path owner repo = owner ++ "_" ++ repo).
  { unfold repo_path, OsPath.join.
    assert (Hname : startswith (owner ++ "_" ++ repo) "/" = true)
      by (unfold startswith in *; now apply prefix_append).
    now rewrite Hname. }
  split; [exact Hpath|].
  intros Hok.
  destruct (clone_repo_ok _ _ _ Hok)
    as (u & o & r & seconds & tree & fs1 & Hu & Ho & Hr & _ & _ & Hremote & _ & Hnode).
  cbn [c_repo_url c_owner c_repo c_token] in *.
  injection Hu as <-. injection Ho as <-. injection Hr as <-.
  rewrite Hpath in Hnode.
  split; [|now exists seconds, tree].
  clear Hremote Hnode. subst answer. revert Hok. rewrite <- Hpath.
  unfold clone_repo; cbn [c_repo_url c_owner c_repo c_token].
  destruct repo_url as [|uc us]; [cbn; discriminate|].
  destruct owner as [|oc os]; [cbn; discriminate|].
  destruct repo as [|rc rs]; [cbn; discriminate|].
  unfold clone_attempt.
  destruct (remove_existing e fs _) as [[[]|x] fs2].
  - destruct (run_git_clone e fs2 _ _ 300) as [[c|x] fs3].
    + destruct (negb (returncode c =? 0)%Z); cbn; [discriminate | reflexivity].
    + destruct x; cbn; discriminate.
  - destruct x; cbn; discriminate.
Qed.

End Keys.

Lemma absolute_owner_leaves_storage_root_witness :
  repo_path "/tmp/x" "r" = "/tmp/x_r"
  /\ node_at
       (snd (clone_repo two_remotes only_repos
               {| c_repo_url := Some "https://host/one"; c_owner := Some "/tmp/x";
                  c_repo := Some "r"; c_token := None |}))
       "/tmp/x_r" = Some (Dir first_tree).
Proof.
  destruct (absolute_owner_leaves_storage_root two_remotes only_repos
              "https://host/one" "/tmp/x" "r" None eq_refl) as [Hpath Hok].
  split; [exact Hpath|].
  destruct (Hok eq_refl) as (_ & seconds & tree & Hremote & Htree).
  assert (Hsame : tree = first_tree)
    by (vm_compute in Hremote; injection Hremote as _ <-; reflexivity).
  rewrite <- Hsame. exact Htree.
Defined.

(** ** What the check lets through *)

Section CheckAccepts.

#[local] Abbreviation sep := OsPath.sep.

Lemma prefix_cons (a b : ascii) (p s : string) :
  String.prefix (String a p) (String b s) = (Ascii.eqb a b && String.prefix p s)%bool.
Proof.
  cbn [String.prefix]. destruct (ascii_dec a b) as [->|Hne].
  - now rewrite Ascii.eqb_refl.
  - apply Ascii.eqb_neq in Hne. now rewrite Hne.
Qed.

Lemma prefix_app_same (a b c : string) :
  String.prefix (a ++ b) (a ++ c) = String.prefix b c.
Proof.
  induction a as [|x a IH]; [reflexivity|].
  cbn [append]. now rewrite prefix_cons, Ascii.eqb_refl, IH.
Qed.

Lemma prefix_refl (s : string) : String.prefix s s = true.
Proof.
  induction s as [|x s IH]; [reflexivity|].
  now rewrite prefix_cons, Ascii.eqb_refl, IH.
Qed.

Lemma initial_slashes_three (a b c : ascii) (r : string) :
  OsPath.initial_slashes (String a (String b (String c r)))
  = if Ascii.eqb "/" a
    then if (Ascii.eqb "/" b && negb (Ascii.eqb "/" c))%bool then 2 else 1
    else 0.
Proof.
  unfold OsPath.initial_slashes, startswith.
  rewrite !prefix_cons, !prefix_empty.
  destruct (Ascii.eqb "/" a), (Ascii.eqb "/" b), (Ascii.eqb "/" c); reflexivity.
Qed.

Lemma join_appends (p file_path : string) :
  OsPath.isabs p = true -> startswith file_path "/" = false ->
  OsPath.join p file_path
  = p ++ (if endswith_char p sep then file_path else "/" ++ file_path).
Proof.
  intros Habs Hrel. unfold OsPath.join. rewrite Hrel.
  assert (Hp : String.eqb p "" = false).
  { apply String.eqb_neq. intros ->. discriminate. }
  rewrite Hp. cbn [orb]. now destruct (endswith_char p sep).
Qed.

Lemma first_is_not_sep (x : ascii) (fp : string) :
  startswith (String x fp) "/" = false -> Ascii.eqb "/" x = false.
Proof.
  unfold startswith. now rewrite prefix_cons, prefix_empty, andb_true_r.
Qed.

Lemma slashes_one_then (fp : string) :
  startswith fp "/" = false -> OsPath.initial_slashes (String "/" fp) = 1.
Proof.
  intros Hrel. destruct fp as [|x fp]; [reflexivity|].
  apply first_is_not_sep in Hrel.
  unfold OsPath.initial_slashes, startswith.
  rewrite !prefix_cons, !prefix_empty, Ascii.eqb_refl, Hrel. reflexivity.
Qed.

Lemma slashes_two_then (fp : string) :
  startswith fp "/" = false ->
  OsPath.initial_slashes (String "/" (String "/" fp)) = 2.
Proof.
  intros Hrel. destruct fp as [|x fp]; [reflexivity|].
  apply first_is_not_sep in Hrel.
  unfold OsPath.initial_slashes, startswith.
  rewrite !prefix_cons, !prefix_empty, !Ascii.eqb_refl, Hrel. reflexivity.
Qed.

(** [join] with a relative path keeps the leading slashes as they are *)
Lemma initial_slashes_join (p file_path : string) :
  OsPath.isabs p = true -> startswith file_path "/" = false ->
  OsPath.initial_slashes (OsPath.join p file_path) = OsPath.initial_slashes p.
Proof.
  intros Habs Hrel. rewrite (join_appends p file_path Habs Hrel).
  unfold OsPath.isabs, startswith in Habs.
  destruct p as [|a [|b [|c r]]].
  - discriminate.
  - rewrite prefix_cons, prefix_empty, andb_true_r in Habs.
    apply Ascii.eqb_eq in Habs. subst a.
    change (endswith_char "/" sep) with true. cbn iota.
    change ("/" ++ file_path) with (String "/" file_path).
    now rewrite slashes_one_then.
  - rewrite prefix_cons, prefix_empty, andb_true_r in Habs.
    apply Ascii.eqb_eq in Habs. subst a.
    change (endswith_char (String "/" (String b "")) sep) with (Ascii.eqb b sep).
    destruct (Ascii.eqb b sep) eqn:Hb.
    + apply Ascii.eqb_eq in Hb. subst b.
      change (String "/" (String sep "") ++ file_path)
        with (String "/" (String "/" file_path)).
      now rewrite slashes_two_then.
    + change (String "/" (String b "") ++ "/" ++ file_path)
        with (String "/" (String b (String "/" file_path))).
      rewrite initial_slashes_three.
      unfold OsPath.initial_slashes, startswith.
      rewrite !prefix_cons, !prefix_empty, !Ascii.eqb_refl.
      rewrite Ascii.eqb_sym in Hb. change sep with "/"%char in Hb.
      rewrite Hb. reflexivity.
  - cbn [append]. now rewrite !initial_slashes_three.
Qed.

Lemma norm_fold_grows (sl : nat) (comps : list string) :
  Forall (fun c => c <> "..") comps ->
  forall acc, exists more,
    fold_left (OsPath.norm_step sl) comps acc = (acc ++ more)%list.
Proof.
  induction 1 as [|c comps Hc Hcs IH]; intros acc.
  - exists []. cbn. now rewrite app_nil_r.
  - cbn [fold_left]. unfold OsPath.norm_step at 2.
    destruct (String.eqb c "" || String.eqb c ".")%bool; [apply IH|].
    apply String.eqb_neq in Hc. rewrite Hc. cbn [negb orb].
    destruct (IH (acc ++ [c])%list) as [more Hmore].
    exists (c :: more). now rewrite Hmore, <- app_assoc.
Qed.

Lemma join_two_lists (a b : list string) :
  a <> [] -> b <> [] ->
  PyStr.join "/" (a ++ b)%list = PyStr.join "/" a ++ "/" ++ PyStr.join "/" b.
Proof.
  intros Ha Hb. induction a as [|x a IH]; [congruence|].
  destruct a as [|y a].
  - destruct b as [|z b]; [congruence | reflexivity].
  - change (PyStr.join "/" ((x :: y :: a) ++ b)%list)
      with (x ++ "/" ++ PyStr.join "/" ((y :: a) ++ b)%list).
    rewrite IH by discriminate.
    change (PyStr.join "/" (x :: y :: a)) with (x ++ "/" ++ PyStr.join "/" (y :: a)).
    now rewrite !append_assoc_str.
Qed.

Lemma join_prefix (a more : list string) :
  String.prefix (PyStr.join "/" a) (PyStr.join "/" (a ++ more)%list) = true.
Proof.
  destruct a as [|x a]; [apply prefix_empty|].
  destruct more as [|y more].
  - rewrite app_nil_r. apply prefix_refl.
  - rewrite join_two_lists by discriminate. apply prefix_self.
Qed.

Variable cwd : string.

Lemma inside_repo_plain_path (root file_path : string) :
  OsPath.isabs root = true ->
  startswith file_path "/" = false ->
  Derived.no_dotdot file_path ->
  inside_repo cwd root (OsPath.join root file_path) = true.
Proof.
  intros Habs Hrel Hplain.
  destruct (join_relative root file_path Habs Hrel) as [Habs' _].
  unfold inside_repo, OsPath.abspath. rewrite Habs, Habs'.
  rewrite (normpath_abs _ Habs), (normpath_abs _ Habs').
  rewrite (initial_slashes_join _ _ Habs Hrel).
  unfold startswith. rewrite prefix_app_same.
  rewrite (norm_comps_abs _ Habs), (norm_comps_abs _ Habs').
  rewrite (fold_join_relative (OsPath.norm_step 1) [] root file_path)
    by (try assumption; reflexivity).
  destruct (norm_fold_grows 1 _ Hplain
              (fold_left (OsPath.norm_step 1) (split sep root) [])) as [more ->].
  apply join_prefix.
Qed.

(** X10. A relative path without [..] among its components passes the
    check of [get_file] and [analyze_files], for every key: the check turns
    down no path that stays below the snapshot directory. *)
Theorem check_accepts_paths_without_dotdot (owner repo file_path : string) :
  startswith file_path "/" = false ->
  Derived.no_dotdot file_path ->
  inside_repo cwd (repo_path owner repo)
    (OsPath.join (repo_path owner repo) file_path) = true.
Proof.
  intros Hrel Hplain.
  apply inside_repo_plain_path; try assumption. apply repo_path_abs.
Qed.

End CheckAccepts.

Lemma check_accepts_paths_without_dotdot_witness :
  inside_repo "/app" (repo_path "a" "b")
    (OsPath.join (repo_path "a" "b") "src/./main.py") = true.
Proof.
  apply (check_accepts_paths_without_dotdot "/app" "a" "b" "src/./main.py").
  - reflexivity.
  - unfold Derived.no_dotdot. cbn. repeat constructor; discriminate.
Defined.

(** ** From the listing to the readers *)

Section ListedFiles.

Local Open Scope list_scope.

#[local] Abbreviation sep := OsPath.sep.
#[local] Abbreviation valid n := (Spec.valid_name n = true).

(** what the enumeration of a well-formed tree holds: files, under the
    names that lead to them *)
Lemma all_files_spec (n : node) :
  forall pre comps size,
    Spec.well_formed n -> In (comps, size) (Spec.all_files pre n) ->
    exists names err data,
      comps = pre ++ names /\ names <> [] /\ Forall (fun x => valid x) names
      /\ get n names = Some (File err data) /\ size = List.length data.
Proof.
  induction n as [err data|es IH] using node_induction;
    intros pre comps size Hwf Hin; [contradiction|].
  destruct (well_formed_dir es Hwf) as [Hnd Hall].
  cbn [Spec.all_files] in Hin. apply in_app_or in Hin.
  rewrite Forall_forall in Hall, IH.
  destruct Hin as [Hin|Hin]; apply in_flat_map in Hin;
    destruct Hin as ([name child] & Hentry & Hin);
    destruct (Hall _ Hentry) as [Hname Hwfc]; cbn [fst snd] in *.
  - destruct child as [err data|sub]; [|contradiction].
    destruct Hin as [Heq|[]]. injection Heq as <- <-.
    exists [name], err, data. repeat split.
    + discriminate.
    + now repeat constructor.
    + cbn [get]. now rewrite (lookup_entry_in es name _ Hnd Hentry).
  - destruct (is_dir child); [|contradiction].
    destruct (IH _ Hentry (pre ++ [name]) comps size Hwfc Hin)
      as (names & err & data & -> & _ & Hnames & Hget & ->).
    exists (name :: names), err, data. repeat split.
    + now rewrite <- app_assoc.
    + discriminate.
    + now constructor.
    + cbn [get]. now rewrite (lookup_entry_in es name _ Hnd Hentry).
Qed.

Lemma exists_is_dir (n : node) (name : string) (rest : list string) :
  get n (name :: rest) <> None -> exists es, n = Dir es.
Proof. destruct n as [err data|es]; [now intros [] | now exists es]. Qed.

(** walking down through names that exist *)
Lemma walk_down (fs : node) (names : list string) :
  Forall (fun x => valid x) names ->
  forall l : loc, get fs (l ++ names) <> None ->
    fold_left (walk_step fs) names (Some l) = Some (l ++ names).
Proof.
  induction 1 as [|name names Hname Hnames IH]; intros l Hget.
  - cbn. now rewrite app_nil_r.
  - cbn [fold_left].
    assert (Hstep : walk_step fs (Some l) name = Some (l ++ [name])).
    { unfold walk_step.
      assert (Hdir : is_dir_at fs l = true).
      { unfold is_dir_at. rewrite get_app in Hget.
        destruct (get fs l) as [n|]; [|congruence].
        destruct (exists_is_dir n name names Hget) as [es ->]. reflexivity. }
      rewrite Hdir.
      destruct (valid_name_inv name Hname) as (H0 & H1 & H2 & _).
      apply String.eqb_neq in H0, H1, H2.
      unfold special. rewrite H0, H1, H2. cbn [orb].
      assert (Hchild : get fs (l ++ [name]) <> None).
      { apply (get_prefix_exists fs (l ++ [name]) names).
        now rewrite <- app_assoc. }
      destruct (get fs (l ++ [name])); congruence. }
    rewrite Hstep. specialize (IH (l ++ [name])).
    rewrite <- app_assoc in IH. cbn [app] in IH. now apply IH.
Qed.

Lemma split_join_names (names : list string) :
  names <> [] -> Forall (fun x => valid x) names ->
  split sep (PyStr.join "/" names) = names.
Proof.
  intros Hne Hnames. induction Hnames as [|name names Hname Hrest IH]; [congruence|].
  destruct (valid_name_inv name Hname) as (_ & _ & _ & Hsep).
  destruct names as [|next names].
  - cbn [PyStr.join]. now apply split_no_sep.
  - change (PyStr.join "/" (name :: next :: names))
      with (name ++ String sep (PyStr.join "/" (next :: names)))%string.
    rewrite split_app_sep, (split_no_sep name Hsep), IH by discriminate.
    reflexivity.
Qed.

Lemma join_names_relative (names : list string) :
  names <> [] -> Forall (fun x => valid x) names ->
  startswith (PyStr.join "/" names) "/" = false.
Proof.
  intros Hne Hnames. destruct Hnames as [|name names Hname _]; [congruence|].
  pose proof (valid_name_not_abs name Hname) as Hrel.
  destruct (valid_name_inv name Hname) as (H0 & _).
  destruct name as [|c name]; [congruence|].
  unfold startswith in *. rewrite starts_with_sep in Hrel.
  destruct names as [|next names]; cbn [PyStr.join append];
    now rewrite starts_with_sep.
Qed.

Variable cwd : string.

(** the file behind a record of the listing: it passes the check and is
    where the joined path leads *)
Lemma listed_file_found (fs : node) (owner repo : string) (top : node)
    (r : file_record) :
  node_at fs (repo_path owner repo) = Some top ->
  Spec.well_formed top ->
  In r (Spec.plain_listing top) ->
  exists err data,
    List.length data = fr_size r
    /\ inside_repo cwd (repo_path owner repo)
         (OsPath.join (repo_path owner repo) (fr_path r)) = true
    /\ node_at fs (OsPath.join (repo_path owner repo) (fr_path r))
       = Some (File err data).
Proof.
  intros Htop Hwf Hin.
  unfold Spec.plain_listing, Spec.listed, Spec.files_under in Hin.
  apply in_map_iff in Hin. destruct Hin as ([comps size] & <- & Hin).
  apply filter_In in Hin. destruct Hin as [Hin _].
  destruct (all_files_spec top [] comps size Hwf Hin)
    as (names & err & data & -> & Hne & Hnames & Hget & ->).
  cbn [app Spec.record_of fst snd fr_path fr_size].
  set (rel := PyStr.join "/" names).
  set (root := repo_path owner repo) in *.
  pose proof (repo_path_abs owner repo) as Habs. fold root in Habs.
  pose proof (join_names_relative names Hne Hnames) as Hrel. fold rel in Hrel.
  exists err, data. split; [reflexivity|]. split.
  - apply inside_repo_plain_path; try assumption.
    unfold Derived.no_dotdot, rel. rewrite (split_join_names names Hne Hnames).
    eapply Forall_impl; [|exact Hnames].
    intros x Hx. now destruct (valid_name_inv x Hx) as (_ & _ & ? & _).
  - unfold node_at in *. rewrite (resolve_join fs root rel Habs Hrel).
    destruct (resolve fs root) as [l|]; [|discriminate].
    unfold rel. rewrite (split_join_names names Hne Hnames).
    assert (Hfile : get fs (l ++ names) = Some (File err data))
      by now rewrite get_app, Htop.
    rewrite (walk_down fs names Hnames l) by congruence. exact Hfile.
Qed.

(** X11. Every record of the listing can be fetched.  For a snapshot whose
    tree is well formed, [get_file] asked for the path of a record answers
    200 with the decoded content of a file whose length in bytes is the size
    of the record; only a file that cannot be opened gives the 500 of its
    error. *)
Theorem listed_files_are_served (fs : node) (owner repo : string) (top : node)
    (r : file_record) :
  owner <> "" -> repo <> "" ->
  node_at fs (repo_path owner repo) = Some top ->
  Spec.well_formed top ->
  In r (Spec.plain_listing top) ->
  exists err data,
    List.length data = fr_size r
    /\ get_file cwd fs (fr_path r) (Some owner) (Some repo)
       = match err with
         | None => {| status := 200;
                      payload := FileContent (fr_path r) (read_all data) |}
         | Some message => {| status := 500; payload := Error message |}
         end.
Proof.
  intros Ho Hr Htop Hwf Hin.
  destruct (listed_file_found fs owner repo top r Htop Hwf Hin)
    as (err & data & Hlen & Hinside & Hnode).
  exists err, data. split; [exact Hlen|].
  destruct owner as [|oc os]; [contradiction|].
  destruct repo as [|rc rs]; [contradiction|].
  unfold get_file, path_exists, isfile, open_file. rewrite Hinside, Hnode.
  cbn [negb]. now destruct err.
Qed.

End ListedFiles.

Lemma listed_files_are_served_witness :
  get_file "/app" two_snapshots "src/main.py" (Some "a") (Some "b")
  = {| status := 200;
       payload := FileContent "src/main.py" (read_all (bytes "print(1)")) |}.
Proof.
  destruct (listed_files_are_served "/app" two_snapshots "a" "b"
              (Dir [("README.md", File None (bytes "hello"));
                    (".gitignore", File None (bytes "*.o"));
                    (".git", Dir [("config", File None (bytes "[core]"))]);
                    (".github", Dir [("ci.yml", File None (bytes "on: push"))]);
                    ("src",
                     Dir [("main.py", File None (bytes "print(1)"));
                          ("locked", File (Some "[Errno 13] Permission denied") [])])])
              {| fr_path := "src/main.py"; fr_size := 8 |})
    as (err & data & Hsize & Hget).
  - discriminate.
  - discriminate.
  - reflexivity.
  - cbn. repeat split; try reflexivity;
      repeat (constructor; [cbn; intuition discriminate|]); constructor.
  - cbn. auto.
  - cbn [fr_path] in Hget.
    change (get_file "/app" two_snapshots "src/main.py" (Some "a") (Some "b"))
      with {| status := 200;
              payload := FileContent "src/main.py" (read_all (bytes "print(1)")) |}
      in Hget.
    reflexivity.
Defined.

(** ** Sizes in bytes and in characters *)

Section Sizes.

Ltac bound_calls f IH :=
  repeat match goal with
  | |- context [f ?t] =>
      lazymatch goal with
      | _ : (List.length (f t) <= List.length t)%nat |- _ => fail
      | _ =>
          assert (List.length (f t) <= List.length t)%nat
            by (apply IH; cbn [List.length] in *; lia)
      end
  end.

Ltac split_cases :=
  match goal with
  | |- context [if ?b then _ else _] => destruct b
  | |- context [match ?r with nil => _ | cons _ _ => _ end] => is_var r; destruct r
  end.

(** decoding never gives more characters than there are bytes *)
Lemma decode_ignore_length (bs : list byte) :
  (List.length (decode_ignore bs) <= List.length bs)%nat.
Proof.
  assert (H : forall n bs, (List.length bs <= n)%nat ->
                (List.length (decode_ignore bs) <= List.length bs)%nat);
    [|now apply (H (List.length bs))].
  clear bs. induction n as [|n IH]; intros bs Hlen;
    destruct bs as [|b0 r0]; try (cbn in *; lia).
  cbn [decode_ignore].
  repeat first [progress bound_calls decode_ignore IH | split_cases];
    cbn [List.length] in *; lia.
Qed.

Lemma translate_newlines_length (cs : text) :
  (List.length (translate_newlines cs) <= List.length cs)%nat.
Proof.
  assert (H : forall n cs, (List.length cs <= n)%nat ->
                (List.length (translate_newlines cs) <= List.length cs)%nat);
    [|now apply (H (List.length cs))].
  clear cs. induction n as [|n IH]; intros cs Hlen;
    destruct cs as [|c0 r0]; try (cbn in *; lia).
  cbn [translate_newlines].
  repeat first [progress bound_calls translate_newlines IH | split_cases];
    cbn [List.length] in *; lia.
Qed.

Lemma decoded_length (data : list byte) :
  (List.length (decoded data) <= List.length data)%nat.
Proof.
  unfold decoded.
  pose proof (translate_newlines_length (decode_ignore data)).
  pose proof (decode_ignore_length data). lia.
Qed.

Variable cwd : string.
Variable fits : list byte -> Z -> bool.

(** a budget of at least the size of the file reads the whole file, if the
    read is carried out *)
Lemma read_whole (data : list byte) (size : Z) :
  (Z.of_nat (List.length data) <= size)%Z ->
  Derived.granted fits data size = true ->
  read fits data size = Return (read_all data).
Proof.
  intros Hsize Hgranted. unfold Derived.granted in Hgranted.
  apply andb_true_iff in Hgranted. destruct Hgranted as [Hrange Hbuffer].
  unfold read, read_all. rewrite Hrange, Hbuffer. cbn [negb].
  destruct (size <? 0)%Z; [reflexivity|].
  rewrite take_all; [reflexivity|]. pose proof (decoded_length data). lia.
Qed.

(** X12. The size of a record is enough as [max_size].  For a snapshot whose
    tree is well formed and a record of its listing, a batch request for the
    path of the record with [max_size] at least the size of the record
    returns the content [get_file] returns for it, whole, provided the read
    of [max_size] characters of that file is carried out. *)
Theorem batch_returns_listed_file_whole (fs : node) (owner repo : string)
    (top : node) (r : file_record) (max_size : option Z) :
  let limit := match max_size with Some n => n | None => 8000%Z end in
  owner <> "" -> repo <> "" ->
  node_at fs (repo_path owner repo) = Some top ->
  Spec.well_formed top ->
  In r (Spec.plain_listing top) ->
  (Z.of_nat (fr_size r) <= limit)%Z ->
  (forall data,
     Spec.readable cwd fs (repo_path owner repo) (fr_path r) = Some data ->
     Derived.granted fits data limit = true) ->
  exists item,
    analyze_files cwd fits fs
      {| a_owner := Some owner; a_repo := Some repo;
         a_file_paths := [fr_path r]; a_max_size := max_size |}
    = {| status := 200; payload := Analysis [item] |}
    /\ match payload (get_file cwd fs (fr_path r) (Some owner) (Some repo)) with
       | FileContent _ content => e_content item = content /\ e_error item = None
       | _ => e_error item <> None
       end.
Proof.
  intros limit Ho Hr Htop Hwf Hin Hsize Hgranted.
  destruct (listed_file_found cwd fs owner repo top r Htop Hwf Hin)
    as (err & data & Hlen & Hinside & Hnode).
  destruct owner as [|oc os]; [contradiction|].
  destruct repo as [|rc rs]; [contradiction|].
  unfold Spec.readable in Hgranted.
  unfold analyze_files, analyze_file, get_file;
    cbn [a_owner a_repo a_file_paths a_max_size fold_left].
  fold limit. unfold path_exists at 1. rewrite Htop. cbn [negb].
  unfold path_exists, isfile, open_file in *. rewrite Hinside, Hnode in *.
  cbn [negb orb andb] in *.
  destruct err as [message|].
  - eexists. split; [reflexivity|]. cbn. discriminate.
  - rewrite (read_whole data limit); [|now rewrite Hlen | now apply Hgranted].
    eexists. split; [reflexivity|]. cbn. now split.
Qed.

End Sizes.

Lemma batch_returns_listed_file_whole_witness :
  exists item,
    analyze_files "/app" roomy two_snapshots
      {| a_owner := Some "a"; a_repo := Some "b";
         a_file_paths := ["src/main.py"]; a_max_size := Some 8%Z |}
    = {| status := 200; payload := Analysis [item] |}
    /\ e_content item = read_all (bytes "print(1)").
Proof.
  destruct (batch_returns_listed_file_whole "/app" roomy two_snapshots "a" "b"
              (Dir [("README.md", File None (bytes "hello"));
                    (".gitignore", File None (bytes "*.o"));
                    (".git", Dir [("config", File None (bytes "[core]"))]);
                    (".github", Dir [("ci.yml", File None (bytes "on: push"))]);
                    ("src",
                     Dir [("main.py", File None (bytes "print(1)"));
                          ("locked", File (Some "[Errno 13] Permission denied") [])])])
              {| fr_path := "src/main.py"; fr_size := 8 |} (Some 8%Z))
    as (item & Hres & Hc).
  - discriminate.
  - discriminate.
  - reflexivity.
  - cbn. repeat split; try reflexivity;
      repeat (constructor; [cbn; intuition discriminate|]); constructor.
  - cbn. auto.
  - cbn. lia.
  - intros data _. reflexivity.
  - exists item. split; [exact Hres|].
    change (payload (get_file "/app" two_snapshots
                       (fr_path {| fr_path := "src/main.py"; fr_size := 8 |})
                       (Some "a") (Some "b")))
      with (FileContent "src/main.py" (read_all (bytes "print(1)"))) in Hc.
    now destruct Hc.
Defined.

(** ** One key and the others *)

Section OtherKeys.

Local Open Scope list_scope.

#[local] Abbreviation sep := OsPath.sep.

Lemma lookup_remove_entry_other name k es :
  k <> name -> lookup_entry k (remove_entry name es) = lookup_entry k es.
Proof.
  intros Hne. induction es as [|[k' v] es IH]; [reflexivity|].
  cbn [remove_entry filter fst lookup_entry].
  destruct (String.eqb k' name) eqn:Hk'; cbn [negb].
  - apply String.eqb_eq in Hk'. subst k'. fold (remove_entry name es).
    rewrite IH. destruct (String.eqb name k) eqn:Hk; [|reflexivity].
    apply String.eqb_eq in Hk. congruence.
  - cbn [lookup_entry]. fold (remove_entry name es). now rewrite IH.
Qed.

Lemma apart_tail (name : string) (p x : loc) :
  Derived.apart (name :: p) (name :: x) -> Derived.apart p x.
Proof.
  intros [H1 H2]. split; intros r Hr; [apply (H1 r) | apply (H2 r)];
    cbn [app]; now rewrite Hr.
Qed.

(** writing at [p] leaves what is beside [p] as it is *)
Lemma get_set_at_apart (p : loc) (n : node) :
  forall fs x, Derived.apart p x -> get (set_at p n fs) x = get fs x.
Proof.
  induction p as [|name p IH]; intros fs x Hap.
  - exfalso. destruct Hap as [H _]. now apply (H x).
  - destruct x as [|y x].
    + exfalso. destruct Hap as [_ H]. now apply (H (name :: p)).
    + destruct fs as [err data|es]; [reflexivity|].
      cbn [set_at].
      destruct (String.eqb y name) eqn:Hy.
      * apply String.eqb_eq in Hy. subst y. apply apart_tail in Hap.
        destruct (lookup_entry name es) as [child|] eqn:Hchild.
        -- cbn [get]. rewrite lookup_set_entry_same, Hchild. now apply IH.
        -- destruct p as [|q p]; [|reflexivity].
           exfalso. destruct Hap as [H _]. now apply (H x).
      * apply String.eqb_neq in Hy.
        destruct (lookup_entry name es) as [child|] eqn:Hchild.
        -- cbn [get]. now rewrite lookup_set_entry_other.
        -- destruct p as [|q p]; [|reflexivity].
           cbn [get]. now rewrite lookup_set_entry_other.
Qed.

(** deleting at [p] leaves what is beside [p] as it is *)
Lemma get_remove_at_apart (p : loc) :
  forall fs x, Derived.apart p x -> get (remove_at p fs) x = get fs x.
Proof.
  induction p as [|name p IH]; intros fs x Hap; [reflexivity|].
  destruct x as [|y x].
  - exfalso. destruct Hap as [_ H]. now apply (H (name :: p)).
  - destruct fs as [err data|es]; [reflexivity|].
    cbn [remove_at].
    destruct (String.eqb y name) eqn:Hy.
    + apply String.eqb_eq in Hy. subst y. apply apart_tail in Hap.
      destruct p as [|q p].
      * exfalso. destruct Hap as [H _]. now apply (H x).
      * destruct (lookup_entry name es) as [child|] eqn:Hchild; [|reflexivity].
        cbn [get]. rewrite lookup_set_entry_same, Hchild. now apply IH.
    + apply String.eqb_neq in Hy.
      destruct p as [|q p].
      * cbn [get]. now rewrite lookup_remove_entry_other.
      * destruct (lookup_entry name es) as [child|] eqn:Hchild; [|reflexivity].
        cbn [get]. now rewrite lookup_set_entry_other.
Qed.

(** deleting at [p] leaves the kind of every place that is not at or below
    [p] *)
Lemma kind_at_remove_at_frame (p : loc) :
  forall fs x, (forall r, x <> p ++ r) ->
    kind_at (remove_at p fs) x = kind_at fs x.
Proof.
  induction p as [|name p IH]; intros fs x Hx; [reflexivity|].
  destruct fs as [err data|es]; [reflexivity|].
  cbn [remove_at].
  destruct x as [|y x].
  - destruct p as [|q p]; [reflexivity|].
    destruct (lookup_entry name es); reflexivity.
  - destruct (String.eqb y name) eqn:Hy.
    + apply String.eqb_eq in Hy. subst y.
      assert (Hx' : forall r, x <> p ++ r) by (intros r ->; now apply (Hx r)).
      destruct p as [|q p]; [exfalso; now apply (Hx' x)|].
      destruct (lookup_entry name es) as [child|] eqn:Hchild; [|reflexivity].
      unfold kind_at. cbn [get]. rewrite lookup_set_entry_same, Hchild.
      apply (IH child x Hx').
    + apply String.eqb_neq in Hy.
      destruct p as [|q p].
      * unfold kind_at. cbn [get]. now rewrite lookup_remove_entry_other.
      * destruct (lookup_entry name es) as [child|] eqn:Hchild; [|reflexivity].
        unfold kind_at. cbn [get]. now rewrite lookup_set_entry_other.
Qed.

End OtherKeys.

Section CloneFrame.

Local Open Scope list_scope.

#[local] Abbreviation sep := OsPath.sep.
#[local] Abbreviation valid n := (Spec.valid_name n = true).

Lemma repo_dir_fold {A : Type} (f : A -> string -> A) (init : A) (d : string) :
  (forall acc, f (f acc "") d = f acc d) -> valid d ->
  fold_left f (split sep (OsPath.join REPO_DIR d)) init
  = f (f (f init "") "repos") d.
Proof.
  intros Hskip Hd. now rewrite fold_join_name.
Qed.

Lemma repo_dir_abs (d : string) :
  valid d -> OsPath.isabs (OsPath.join REPO_DIR d) = true.
Proof. intros Hd. now destruct (join_name REPO_DIR d eq_refl Hd). Qed.

Lemma walk_step_name (fs : node) (l : loc) (d : string) :
  valid d ->
  walk_step fs (Some l) d
  = if is_dir_at fs l
    then match get fs (l ++ [d]) with
         | Some _ => Some (l ++ [d])
         | None => None
         end
    else None.
Proof.
  intros Hd. destruct (valid_name_inv d Hd) as (H0 & H1 & H2 & _).
  apply String.eqb_neq in H0, H1, H2.
  unfold walk_step, special. now rewrite H0, H1, H2.
Qed.

(** where the directory of a key with a plain name is *)
Lemma resolve_repo_dir (fs : node) (d : string) :
  valid d -> is_dir_at fs [] = true -> is_dir_at fs ["repos"] = true ->
  resolve fs (OsPath.join REPO_DIR d)
  = match get fs ["repos"; d] with
    | Some _ => Some ["repos"; d]
    | None => None
    end.
Proof.
  intros Hd Hroot Hrepos. unfold resolve. rewrite (repo_dir_abs d Hd).
  rewrite repo_dir_fold by (try assumption; intros; apply walk_step_skip_any).
  assert (H1 : walk_step fs (Some []) "" = Some [])
    by (unfold walk_step; now rewrite Hroot).
  assert (H2 : walk_step fs (Some []) "repos" = Some ["repos"]).
  { unfold walk_step. rewrite Hroot. cbn [special String.eqb orb app].
    change (String.eqb "repos" "..") with false. cbn iota.
    unfold is_dir_at in Hrepos. destruct (get fs ["repos"]); [reflexivity | discriminate]. }
  pose proof (walk_step_name fs ["repos"] d Hd) as H3.
  unfold loc in *. rewrite H1, H2, H3, Hrepos. reflexivity.
Qed.

(** *** The path of a plain name, as the two commands see it *)

Lemma repo_dir_string (d : string) :
  valid d -> OsPath.join REPO_DIR d = ("/repos/" ++ d)%string.
Proof.
  intros Hd. unfold OsPath.join. now rewrite (valid_name_not_abs d Hd).
Qed.

Lemma repo_dir_split (d : string) :
  valid d -> split sep (OsPath.join REPO_DIR d) = [""; "repos"; d].
Proof.
  intros Hd. rewrite (repo_dir_string d Hd).
  destruct (valid_name_inv d Hd) as (_ & _ & _ & Hsep).
  change ("/repos/" ++ d)%string with ("/repos" ++ String sep d)%string.
  now rewrite split_app_sep, (split_no_sep d Hsep).
Qed.

Lemma only_sep_ends (s : string) :
  only_sep s = true -> s <> ""%string -> endswith_char s sep = true.
Proof.
  induction s as [|c s IH]; intros H Hne; [congruence|].
  cbn [only_sep] in H. apply andb_true_iff in H. destruct H as [Hc Hs].
  destruct s as [|d s]; [exact Hc|].
  change (endswith_char (String c (String d s)) sep)
    with (endswith_char (String d s) sep).
  apply IH; [exact Hs | discriminate].
Qed.

(** a path without a slash at its end is the directory [git] takes it for *)
Lemma strip_unchanged (s : string) :
  endswith_char s sep = false -> strip_trailing_slashes s = s.
Proof.
  induction s as [|c s IH]; intros H; [reflexivity|].
  cbn [strip_trailing_slashes].
  destruct s as [|d s]; [reflexivity|].
  change (endswith_char (String c (String d s)) sep)
    with (endswith_char (String d s) sep) in H.
  destruct (only_sep (String d s)) eqn:Honly.
  - rewrite (only_sep_ends _ Honly) in H by discriminate. discriminate.
  - now rewrite (IH H).
Qed.

Lemma repo_dir_strip (d : string) :
  valid d -> strip_trailing_slashes (OsPath.join REPO_DIR d) = OsPath.join REPO_DIR d.
Proof.
  intros Hd. apply strip_unchanged. rewrite (repo_dir_string d Hd).
  destruct (valid_name_inv d Hd) as (Hne & _ & _ & Hsep).
  destruct d as [|c d]; [congruence|].
  rewrite endswith_app_nonempty. now apply endswith_no_sep.
Qed.

Lemma repo_dir_not_dot (d : string) :
  valid d -> dot_or_dotdot (OsPath.join REPO_DIR d) = false.
Proof.
  intros Hd. unfold dot_or_dotdot, last_component.
  rewrite (repo_dir_split d Hd).
  destruct (valid_name_inv d Hd) as (H0 & H1 & H2 & _).
  apply String.eqb_neq in H0, H1, H2.
  assert (Hlast : last (filter OsPath.nonempty [""; "repos"; d]) "" = d).
  { change (filter OsPath.nonempty [""; "repos"; d])
      with ("repos" :: if OsPath.nonempty d then [d] else []).
    unfold OsPath.nonempty. now rewrite H0. }
  now rewrite Hlast, H1, H2.
Qed.

(** what [git] makes of the directory of a plain name *)
Lemma prepare_repo_dir (fs : node) (d : string) :
  valid d -> is_dir_at fs [] = true -> is_dir_at fs ["repos"] = true ->
  prepare_destination fs (OsPath.join REPO_DIR d)
  = match get fs ["repos"; d] with
    | Some (Dir []) => Ready fs ["repos"; d] true
    | Some _ =>
        Fatal fs ("fatal: destination path '" ++ OsPath.join REPO_DIR d
                  ++ "' already exists and is not an empty directory." ++ nl)%string
    | None => Ready (set_at ["repos"; d] (Dir []) fs) ["repos"; d] false
    end.
Proof.
  intros Hd Hroot Hrepos. unfold prepare_destination.
  rewrite (resolve_repo_dir fs d Hd Hroot Hrepos).
  destruct (get fs ["repos"; d]) as [n|] eqn:Hget.
  - rewrite Hget. reflexivity.
  - rewrite (repo_dir_split d Hd). cbn [removelast last]. unfold mkdirs.
    cbn [fold_left].
    assert (H1 : mkdir_step (fs, Some []) "" = (fs, Some []))
      by (unfold mkdir_step; now rewrite Hroot).
    assert (H2 : mkdir_step (fs, Some []) "repos" = (fs, Some ["repos"])).
    { unfold mkdir_step. rewrite Hroot. cbn [special String.eqb orb app].
      change (String.eqb "repos" "..") with false. cbn iota.
      unfold is_dir_at in Hrepos. destruct (get fs ["repos"]); [reflexivity | discriminate]. }
    unfold loc in *. rewrite H1, H2, Hrepos.
    destruct (valid_name_inv d Hd) as (H0 & Hdot & Hdd & _).
    apply String.eqb_neq in H0, Hdot, Hdd.
    unfold special. rewrite H0, Hdot, Hdd. cbn [orb app]. now rewrite Hget.
Qed.


(** the storage root stays where it is when the directory of a name is
    written or deleted *)
Lemma roots_set_at (fs n : node) (d : string) :
  is_dir_at fs [] = true /\ is_dir_at fs ["repos"] = true ->
  is_dir_at (set_at ["repos"; d] n fs) [] = true
  /\ is_dir_at (set_at ["repos"; d] n fs) ["repos"] = true.
Proof.
  intros [Hroot Hrepos]. split; apply is_dir_at_kind;
    rewrite kind_at_set_at_frame by discriminate; now apply is_dir_at_kind.
Qed.

Lemma roots_remove_at (fs : node) (d : string) :
  is_dir_at fs [] = true /\ is_dir_at fs ["repos"] = true ->
  is_dir_at (remove_at ["repos"; d] fs) [] = true
  /\ is_dir_at (remove_at ["repos"; d] fs) ["repos"] = true.
Proof.
  intros [Hroot Hrepos]. split; apply is_dir_at_kind;
    rewrite kind_at_remove_at_frame by discriminate; now apply is_dir_at_kind.
Qed.

Variables (d1 d2 : string).

Hypothesis d1_valid : valid d1.
Hypothesis d2_valid : valid d2.
Hypothesis different : d1 <> d2.

Lemma beside : Derived.apart ["repos"; d1] ["repos"; d2].
Proof. split; intros r Hr; injection Hr as Hr _; congruence. Qed.

Lemma kept_set_at (fs fs' n : node) :
  Derived.kept ["repos"; d2] fs fs' ->
  Derived.kept ["repos"; d2] fs (set_at ["repos"; d1] n fs').
Proof.
  intros (Hroot & Hrepos & Hget).
  destruct (roots_set_at fs' n d1 (conj Hroot Hrepos)) as [Hroot' Hrepos'].
  repeat split; try assumption.
  rewrite get_set_at_apart; [exact Hget | exact beside].
Qed.

Lemma kept_remove_at (fs fs' : node) :
  Derived.kept ["repos"; d2] fs fs' ->
  Derived.kept ["repos"; d2] fs (remove_at ["repos"; d1] fs').
Proof.
  intros (Hroot & Hrepos & Hget).
  destruct (roots_remove_at fs' d1 (conj Hroot Hrepos)) as [Hroot' Hrepos'].
  repeat split; try assumption.
  rewrite get_remove_at_apart; [exact Hget | exact beside].
Qed.

Variable e : env.

Lemma kept_run_rm (fs fs' : node) :
  Derived.kept ["repos"; d2] fs fs' ->
  Derived.kept ["repos"; d2] fs (snd (run_rm e fs' (OsPath.join REPO_DIR d1))).
Proof.
  intros Hk. pose proof Hk as (Hroot & Hrepos & _). unfold run_rm.
  rewrite (resolve_repo_dir fs' d1 d1_valid Hroot Hrepos),
    (repo_dir_not_dot d1 d1_valid).
  destruct (rm_faults e _) as [[c rest|m]|]; cbn [snd]; try exact Hk.
  - destruct (get fs' ["repos"; d1]); [|exact Hk].
    destruct rest; [now apply kept_set_at | now apply kept_remove_at].
  - destruct (get fs' ["repos"; d1]); cbn [snd]; [|exact Hk].
    now apply kept_remove_at.
Qed.

Lemma kept_remove_existing (fs fs' : node) :
  Derived.kept ["repos"; d2] fs fs' ->
  Derived.kept ["repos"; d2] fs
    (snd (remove_existing e fs' (OsPath.join REPO_DIR d1))).
Proof.
  intros Hk. unfold remove_existing.
  destruct (path_exists fs' _); [|exact Hk].
  now apply kept_run_rm.
Qed.

Lemma kept_run_git_clone (fs fs' : node) (url : string) (timeout : N) :
  Derived.kept ["repos"; d2] fs fs' ->
  Derived.kept ["repos"; d2] fs
    (snd (run_git_clone e fs' url (OsPath.join REPO_DIR d1) timeout)).
Proof.
  intros Hk. pose proof Hk as (Hroot & Hrepos & _). unfold run_git_clone.
  destruct (remote e url) as [seconds outcome|c err|m]; try exact Hk.
  rewrite (repo_dir_strip d1 d1_valid), (prepare_repo_dir fs' d1 d1_valid Hroot Hrepos).
  destruct (get fs' ["repos"; d1]) as [[err data|[|entry es]]|]; cbn [snd];
    try exact Hk.
  - destruct (timeout <? seconds)%N; cbn [snd]; [now apply kept_set_at|].
    destruct outcome as [tree|[status|signal] err]; cbn [snd];
      try exact Hk; now apply kept_set_at.
  - assert (Hmade : Derived.kept ["repos"; d2] fs (set_at ["repos"; d1] (Dir []) fs'))
      by now apply kept_set_at.
    destruct (timeout <? seconds)%N; cbn [snd]; [now apply kept_set_at|].
    destruct outcome as [tree|[status|signal] err]; cbn [snd].
    + now apply kept_set_at.
    + now apply kept_remove_at.
    + now apply kept_set_at.
Qed.

End CloneFrame.

Lemma repo_dir_exists (fs : node) (d : string) :
  Spec.valid_name d = true ->
  path_exists fs (OsPath.join REPO_DIR d) = true ->
  is_dir_at fs [] = true /\ is_dir_at fs ["repos"] = true.
Proof.
  intros Hd. unfold path_exists, node_at, resolve.
  rewrite (repo_dir_abs d Hd).
  rewrite repo_dir_fold by (try assumption; intros; apply walk_step_skip_any).
  change (walk_step fs (Some []) "")
    with (if is_dir_at fs [] then @Some loc [] else None).
  destruct (is_dir_at fs []) eqn:Hroot; [|discriminate].
  pose proof (walk_step_name fs [] "repos" eq_refl) as H2.
  pose proof (walk_step_name fs ["repos"] d Hd) as H3.
  unfold loc in *. rewrite H2, Hroot. cbn [app].
  destruct (get fs ["repos"]) eqn:Hrepos; [|discriminate].
  rewrite H3. destruct (is_dir_at fs ["repos"]); [now split | discriminate].
Qed.

Lemma node_at_repo_dir (fs : node) (d : string) :
  Spec.valid_name d = true ->
  is_dir_at fs [] = true -> is_dir_at fs ["repos"] = true ->
  node_at fs (OsPath.join REPO_DIR d) = get fs ["repos"; d].
Proof.
  intros Hd Hroot Hrepos. unfold node_at.
  rewrite (resolve_repo_dir fs d Hd Hroot Hrepos).
  now destruct (get fs ["repos"; d]) eqn:Hget.
Qed.

(** X13. A clone for one key leaves the snapshots of the other keys alone.  When
    the directory names [<owner>_<repo>] of two keys are plain names (no
    slash) and differ, the snapshot of the second is after a clone for the
    first, whatever its outcome, what it was before. *)
Theorem clone_leaves_other_snapshots (e : env) (fs : node)
    (repo_url owner1 repo1 owner2 repo2 : string) (token : option string) :
  Spec.valid_name (owner1 ++ "_" ++ repo1) = true ->
  Spec.valid_name (owner2 ++ "_" ++ repo2) = true ->
  owner1 ++ "_" ++ repo1 <> owner2 ++ "_" ++ repo2 ->
  path_exists fs (repo_path owner2 repo2) = true ->
  node_at
    (snd (clone_repo e fs
            {| c_repo_url := Some repo_url; c_owner := Some owner1;
               c_repo := Some repo1; c_token := token |}))
    (repo_path owner2 repo2)
  = node_at fs (repo_path owner2 repo2).
Proof.
  intros Hd1 Hd2 Hne Hex. unfold repo_path in *.
  set (d1 := owner1 ++ "_" ++ repo1) in *.
  set (d2 := owner2 ++ "_" ++ repo2) in *.
  destruct (repo_dir_exists fs d2 Hd2 Hex) as [Hroot Hrepos].
  assert (Hstart : Derived.kept ["repos"; d2] fs fs) by now repeat split.
  assert (Hend : Derived.kept ["repos"; d2] fs
                   (snd (clone_repo e fs
                           {| c_repo_url := Some repo_url; c_owner := Some owner1;
                              c_repo := Some repo1; c_token := token |}))).
  { unfold clone_repo; cbn [c_repo_url c_owner c_repo c_token].
    destruct repo_url as [|uc us]; [exact Hstart|].
    destruct owner1 as [|oc os]; [exact Hstart|].
    destruct repo1 as [|rc rs]; [exact Hstart|].
    unfold clone_attempt, repo_path. fold d1.
    pose proof (kept_remove_existing d1 d2 Hd1 Hne e fs fs Hstart) as Hrem.
    destruct (remove_existing e fs (OsPath.join REPO_DIR d1)) as [[[]|x] fs1];
      cbn [snd] in Hrem.
    - pose proof (kept_run_git_clone d1 d2 Hd1 Hne e fs fs1
                    (clone_url (String uc us) token) 300 Hrem) as Hgit.
      destruct (run_git_clone e fs1 _ _ 300) as [[c|x] fs2]; cbn [snd] in Hgit.
      + now destruct (negb (returncode c =? 0)%Z).
      + now destruct x.
    - now destruct x. }
  destruct Hend as (Hroot' & Hrepos' & Hget).
  rewrite (node_at_repo_dir _ d2 Hd2 Hroot' Hrepos').
  rewrite (node_at_repo_dir fs d2 Hd2 Hroot Hrepos). exact Hget.
Qed.

Lemma clone_leaves_other_snapshots_witness :
  node_at
    (snd (clone_repo two_remotes two_snapshots
            {| c_repo_url := Some "https://host/one"; c_owner := Some "a";
               c_repo := Some "b"; c_token := None |}))
    (repo_path "a" "bc")
  = Some (Dir [("secret.txt", File None (bytes "s3cret"))]).
Proof.
  rewrite (clone_leaves_other_snapshots two_remotes two_snapshots
             "https://host/one" "a" "b" "a" "bc" None);
    try reflexivity.
  discriminate.
Defined.

(** ** Keys with plain names *)

Section PlainKeys.

Local Open Scope list_scope.

Lemma resolve_repo_dir_inv (fs : node) (d : string) (l : loc) :
  Spec.valid_name d = true ->
  resolve fs (OsPath.join REPO_DIR d) = Some l -> l = ["repos"; d].
Proof.
  intros Hd Hres.
  assert (Hex : path_exists fs (OsPath.join REPO_DIR d) = true).
  { unfold path_exists, node_at. rewrite Hres.
    assert (Hl : get fs l <> None).
    { unfold resolve in Hres. rewrite (repo_dir_abs d Hd) in Hres.
      apply (walk_end_exists fs _ [] l) in Hres; [exact Hres | discriminate]. }
    now destruct (get fs l). }
  destruct (repo_dir_exists fs d Hd Hex) as [Hroot Hrepos].
  rewrite (resolve_repo_dir fs d Hd Hroot Hrepos) in Hres.
  destruct (get fs ["repos"; d]); congruence.
Qed.

(** X8. Two different keys whose owners have no underscore and whose
    directory names [<owner>_<repo>] are plain names (no slash, not [.] or
    [..]) have different directories: their paths differ, and in every file
    system the places the two paths lead to are apart, neither at nor below
    the other. *)
Theorem keys_without_underscore_do_not_collide (owner1 repo1 owner2 repo2 : string) :
  Derived.lacks "_" owner1 = true -> Derived.lacks "_" owner2 = true ->
  Spec.valid_name (owner1 ++ "_" ++ repo1) = true ->
  Spec.valid_name (owner2 ++ "_" ++ repo2) = true ->
  (owner1, repo1) <> (owner2, repo2) ->
  repo_path owner1 repo1 <> repo_path owner2 repo2
  /\ forall fs l1 l2,
       resolve fs (repo_path owner1 repo1) = Some l1 ->
       resolve fs (repo_path owner2 repo2) = Some l2 ->
       Derived.apart l1 l2.
Proof.
  intros Hu1 Hu2 Hd1 Hd2 Hkeys.
  assert (Hne : (owner1 ++ "_" ++ repo1 <> owner2 ++ "_" ++ repo2)%string).
  { intros Heq. apply Hkeys.
    destruct (split_at_first "_" _ _ _ _ Hu1 Hu2 Heq) as [-> ->]. reflexivity. }
  unfold repo_path. split.
  - rewrite (repo_dir_string _ Hd1), (repo_dir_string _ Hd2).
    cbn [append]. intros Heq. apply Hne. now injection Heq.
  - intros fs l1 l2 H1 H2.
    rewrite (resolve_repo_dir_inv fs _ l1 Hd1 H1), (resolve_repo_dir_inv fs _ l2 Hd2 H2).
    now apply beside.
Qed.

End PlainKeys.

Lemma keys_without_underscore_do_not_collide_witness :
  repo_path "octo" "a_b" <> repo_path "octo" "a"
  /\ Derived.apart ["repos"; "octo_a_b"] ["repos"; "octo_a"].
Proof.
  destruct (keys_without_underscore_do_not_collide "octo" "a_b" "octo" "a")
    as [Hpaths Hplaces]; try reflexivity; try discriminate.
  split; [exact Hpaths|].
  apply (Hplaces (Dir [("repos", Dir [("octo_a_b", Dir []); ("octo_a", Dir [])])]));
    reflexivity.
Defined.

(** ** No path twice *)

Section NoDuplicates.

Local Open Scope list_scope.

#[local] Abbreviation sep := OsPath.sep.
#[local] Abbreviation valid n := (Spec.valid_name n = true).

Lemma nodup_flat_map {E B C K : Type} (name_of : E -> K) (g : E -> list B)
    (h : B -> C) (key : C -> K) (es : list E) :
  NoDup (map name_of es) ->
  (forall e, In e es -> forall b, In b (g e) -> key (h b) = name_of e) ->
  (forall e, In e es -> NoDup (map h (g e))) ->
  NoDup (map h (flat_map g es)).
Proof.
  induction es as [|e es IH]; intros Hnd Hkey Hg; [constructor|].
  cbn [map] in Hnd. inversion Hnd as [|? ? Hfresh Hrest]; subst.
  cbn [flat_map]. rewrite map_app. apply NoDup_app.
  - apply Hg. now left.
  - apply IH; [exact Hrest | |]; intros; [apply Hkey | apply Hg]; auto using in_cons.
  - intros c Hc Hc'. apply Hfresh.
    apply in_map_iff in Hc. destruct Hc as (b & <- & Hb).
    apply in_map_iff in Hc'. destruct Hc' as (b' & Heq & Hb').
    apply in_flat_map in Hb'. destruct Hb' as (e' & He' & Hb').
    apply in_map_iff. exists e'. split; [|exact He'].
    rewrite <- (Hkey e' (in_cons _ _ _ He') b' Hb'), Heq.
    apply Hkey; [now left | exact Hb].
Qed.

Lemma entry_unique (es : list (string * node)) (name : string) (c c' : node) :
  NoDup (map fst es) -> In (name, c) es -> In (name, c') es -> c = c'.
Proof.
  intros Hnd H H'.
  pose proof (lookup_entry_in es name c Hnd H) as Hl.
  pose proof (lookup_entry_in es name c' Hnd H') as Hl'. congruence.
Qed.

(** the enumeration of a well-formed tree names no file twice *)
Lemma all_files_nodup (n : node) :
  forall pre, Spec.well_formed n -> NoDup (map fst (Spec.all_files pre n)).
Proof.
  induction n as [err data|es IH] using node_induction; intros pre Hwf;
    [constructor|].
  destruct (well_formed_dir es Hwf) as [Hnd Hall].
  rewrite Forall_forall in Hall, IH.
  set (key := fun comps : list string => nth (List.length pre) comps "").
  cbn [Spec.all_files]. rewrite map_app.
  assert (Hfile_key : forall e, In e es ->
            forall b, In b (let '(name, child) := e in
                            match child with
                            | File _ data => [(pre ++ [name], List.length data)]
                            | Dir _ => []
                            end) -> key (fst b) = fst e).
  { intros [name child] He b Hb. destruct child as [err data|sub]; [|contradiction].
    destruct Hb as [<-|[]]. cbn [fst]. unfold key. apply nth_middle. }
  assert (Hdir_key : forall e, In e es ->
            forall b, In b (let '(name, child) := e in
                            if is_dir child
                            then Spec.all_files (pre ++ [name]) child else []) ->
            key (fst b) = fst e).
  { intros [name child] He [comps size] Hb.
    destruct (Hall _ He) as [_ Hwfc]. cbn [fst snd] in *.
    destruct (is_dir child); [|contradiction].
    destruct (all_files_spec child _ comps size Hwfc Hb)
      as (names & _ & _ & -> & _).
    unfold key. rewrite <- app_assoc. apply nth_middle. }
  apply NoDup_app.
  - apply (nodup_flat_map fst _ fst key es Hnd Hfile_key).
    intros [name child] _. destruct child; repeat constructor. intros [].
  - apply (nodup_flat_map fst _ fst key es Hnd Hdir_key).
    intros [name child] He. destruct (Hall _ He) as [_ Hwfc]. cbn [snd] in *.
    destruct (is_dir child); [|constructor].
    apply (IH _ He). exact Hwfc.
  - intros comps Hfile Hdir.
    apply in_map_iff in Hfile. destruct Hfile as (b & <- & Hb).
    apply in_map_iff in Hdir. destruct Hdir as (b' & Heq & Hb').
    apply in_flat_map in Hb. destruct Hb as ([name child] & He & Hb).
    apply in_flat_map in Hb'. destruct Hb' as ([name' child'] & He' & Hb').
    pose proof (Hfile_key _ He b Hb) as Hk.
    pose proof (Hdir_key _ He' b' Hb') as Hk'.
    rewrite Heq, Hk in Hk'. cbn [fst] in Hk'. subst name'.
    rewrite (entry_unique es name child' child Hnd He' He) in Hb'.
    destruct child as [err data|sub]; [exact Hb' | exact Hb].
Qed.

Lemma join_names_injective (a b : list string) :
  a <> [] -> b <> [] ->
  Forall (fun x => valid x) a -> Forall (fun x => valid x) b ->
  PyStr.join "/" a = PyStr.join "/" b -> a = b.
Proof.
  intros Ha Hb Hva Hvb Heq.
  rewrite <- (split_join_names a Ha Hva), <- (split_join_names b Hb Hvb).
  now rewrite Heq.
Qed.

Variable cwd : string.

(** X14. For a snapshot whose tree is well formed, [list_files] answers 200
    with a list in which no path occurs twice. *)
Theorem listing_has_no_duplicates (fs : node) (owner repo : string) (top : node) :
  owner <> "" -> repo <> "" ->
  node_at fs (repo_path owner repo) = Some top ->
  Spec.well_formed top ->
  exists files,
    list_files cwd fs (Some owner) (Some repo)
    = {| status := 200; payload := FileList files |}
    /\ NoDup (map fr_path files).
Proof.
  intros Ho Hr Htop Hwf.
  exists (Spec.plain_listing top). split.
  - destruct owner as [|oc os]; [contradiction|].
    destruct repo as [|rc rs]; [contradiction|].
    unfold list_files, list_loop, os_walk_path, path_exists.
    rewrite Htop. cbn [negb].
    unfold node_at in Htop.
    destruct (resolve fs (repo_path (String oc os) (String rc rs)))
      as [top_loc|] eqn:Hres; [|discriminate].
    pose proof (repo_path_abs (String oc os) (String rc rs)) as Habs.
    now rewrite (list_files_of_tree cwd fs _ Habs top _ [] top_loc []
                   Hwf Htop (visits_top fs _ top_loc Habs Hres)).
  - unfold Spec.plain_listing, Spec.listed, Spec.files_under.
    rewrite map_map.
    pose proof (all_files_nodup top [] Hwf) as Hnd.
    assert (Hspec : forall f, In f (Spec.all_files [] top) ->
              fst f <> [] /\ Forall (fun x => valid x) (fst f)).
    { intros [comps size] Hf.
      destruct (all_files_spec top [] comps size Hwf Hf)
        as (names & _ & _ & -> & Hne & Hnames & _). now split. }
    induction (Spec.all_files [] top) as [|f fl IH]; [constructor|].
    cbn [map] in Hnd. inversion Hnd as [|? ? Hfresh Hrest]; subst.
    cbn [filter].
    destruct (negb (Spec.mentions_git f)); [|apply IH; auto using in_cons].
    cbn [map]. constructor; [|apply IH; auto using in_cons].
    intros Hin. apply Hfresh.
    apply in_map_iff in Hin. destruct Hin as (f' & Heq & Hf').
    apply filter_In in Hf'. destruct Hf' as [Hf' _].
    apply in_map_iff. exists f'. split; [|exact Hf'].
    cbn [Spec.record_of fr_path] in Heq.
    destruct (Hspec f (in_eq _ _)) as [Hne Hv].
    destruct (Hspec f' (in_cons _ _ _ Hf')) as [Hne' Hv'].
    now apply join_names_injective.
Qed.

End NoDuplicates.

Lemma listing_has_no_duplicates_witness :
  exists files,
    list_files "/app" two_snapshots (Some "a") (Some "b")
    = {| status := 200; payload := FileList files |}
    /\ NoDup (map fr_path files).
Proof.
  apply (listing_has_no_duplicates "/app" two_snapshots "a" "b"
           (Dir [("README.md", File None (bytes "hello"));
                 (".gitignore", File None (bytes "*.o"));
                 (".git", Dir [("config", File None (bytes "[core]"))]);
                 (".github", Dir [("ci.yml", File None (bytes "on: push"))]);
                 ("src",
                  Dir [("main.py", File None (bytes "print(1)"));
                       ("locked", File (Some "[Errno 13] Permission denied") [])])])).
  - discriminate.
  - discriminate.
  - reflexivity.
  - cbn. repeat split; try reflexivity;
      repeat (constructor; [cbn; intuition discriminate|]); constructor.
Defined.

(** ** Clone, then read *)

Section CloneThenRead.

Local Open Scope list_scope.

Variable cwd : string.

Lemma list_files_of_snapshot (fs : node) (owner repo : string) (top : node) :
  owner <> "" -> repo <> "" ->
  node_at fs (repo_path owner repo) = Some top -> Spec.well_formed top ->
  list_files cwd fs (Some owner) (Some repo)
  = {| status := 200; payload := FileList (Spec.listed (Spec.all_files [] top)) |}.
Proof.
  intros Ho Hr Htop Hwf.
  destruct owner as [|oc os]; [contradiction|].
  destruct repo as [|rc rs]; [contradiction|].
  unfold list_files, list_loop, os_walk_path, path_exists.
  rewrite Htop. cbn [negb].
  unfold node_at in Htop.
  destruct (resolve fs (repo_path (String oc os) (String rc rs)))
    as [top_loc|] eqn:Hres; [|discriminate].
  pose proof (repo_path_abs (String oc os) (String rc rs)) as Habs.
  now rewrite (list_files_of_tree cwd fs _ Habs top _ [] top_loc []
                 Hwf Htop (visits_top fs _ top_loc Habs Hres)).
Qed.

(** X15. After a clone that answers 200, the listing of the key is the listing
    of the tree [git] checked out: one record for each of its files without
    [.git] in the path, and nothing of what the directory held before. *)
Theorem clone_then_list (e : env) (fs : node) (repo_url owner repo : string)
    (token : option string) (seconds : N) (tree : list (string * node)) :
  let answer :=
    clone_repo e fs
      {| c_repo_url := Some repo_url; c_owner := Some owner;
         c_repo := Some repo; c_token := token |} in
  remote e (clone_url repo_url token) = Ran seconds (Checkout tree) ->
  Spec.well_formed (Dir tree) ->
  status (fst answer) = 200 ->
  list_files cwd (snd answer) (Some owner) (Some repo)
  = {| status := 200; payload := FileList (Spec.plain_listing (Dir tree)) |}.
Proof.
  intros answer Hremote Hwf Hok.
  destruct (clone_repo_ok _ _ _ Hok)
    as (u & o & r & seconds0 & tree0 & fs1 & Hu & Ho & Hr & _ & _ & Hrem & _ & Hnode).
  cbn [c_repo_url c_owner c_repo c_token] in *.
  injection Hu as <-. injection Ho as <-. injection Hr as <-.
  rewrite Hremote in Hrem. injection Hrem as <- <-.
  assert (Hne : owner <> "" /\ repo <> "").
  { subst answer. revert Hok. unfold clone_repo; cbn [c_repo_url c_owner c_repo].
    destruct repo_url; [cbn; discriminate|].
    destruct owner; [cbn; discriminate|].
    destruct repo; [cbn; discriminate|]. split; discriminate. }
  destruct Hne as [Hno Hnr].
  exact (list_files_of_snapshot _ owner repo (Dir tree) Hno Hnr Hnode Hwf).
Qed.




End CloneThenRead.

Lemma clone_then_list_witness :
  list_files "/app"
    (snd (clone_repo two_remotes two_snapshots
            {| c_repo_url := Some "https://host/one"; c_owner := Some "a";
               c_repo := Some "b"; c_token := None |}))
    (Some "a") (Some "b")
  = {| status := 200;
       payload := FileList [{| fr_path := "old.txt"; fr_size := 1 |}] |}.
Proof.
  rewrite (clone_then_list "/app" two_remotes two_snapshots
             "https://host/one" "a" "b" None 2 first_tree).
  - reflexivity.
  - reflexivity.
  - cbn. repeat split; try reflexivity;
      repeat (constructor; [cbn; intuition discriminate|]); constructor.
  - reflexivity.
Defined.



(** ** Batches and text *)

Section BatchesAndText.

Variable cwd : string.
Variable fits : list byte -> Z -> bool.

Lemma analyze_file_from_empty (fs : node) (root : string) (limit : Z)
    (results : list entry) (p : string) :
  analyze_file cwd fits fs root limit results p
  = (results ++ analyze_file cwd fits fs root limit [] p)%list.
Proof.
  unfold analyze_file.
  destruct (negb (inside_repo cwd root (OsPath.join root p))); [reflexivity|].
  destruct (negb (path_exists fs (OsPath.join root p))
            || negb (isfile fs (OsPath.join root p)))%bool; [reflexivity|].
  destruct (open_file fs (OsPath.join root p)) as [data|x]; [|reflexivity].
  destruct (read fits data limit); reflexivity.
Qed.

Lemma analyze_loop_from_empty (fs : node) (root : string) (limit : Z)
    (paths : list string) :
  forall results,
    fold_left (analyze_file cwd fits fs root limit) paths results
    = (results ++ fold_left (analyze_file cwd fits fs root limit) paths [])%list.
Proof.
  induction paths as [|p paths IH]; intros results; cbn [fold_left].
  - now rewrite app_nil_r.
  - rewrite IH, (IH (analyze_file cwd fits fs root limit [] p)).
    now rewrite analyze_file_from_empty, <- app_assoc.
Qed.

(** X17. A batch is its parts: the entries for [paths1 ++ paths2] are the
    entries for [paths1] followed by the entries for [paths2], so a request
    can be cut in two, or two requests merged, without changing an entry. *)
Theorem batch_of_concatenation (fs : node) (owner repo : option string)
    (paths1 paths2 : list string) (max_size : option Z)
    (results1 results2 : list entry) :
  let batch paths := {| a_owner := owner; a_repo := repo;
                        a_file_paths := paths; a_max_size := max_size |} in
  payload (analyze_files cwd fits fs (batch paths1)) = Analysis results1 ->
  payload (analyze_files cwd fits fs (batch paths2)) = Analysis results2 ->
  analyze_files cwd fits fs (batch (paths1 ++ paths2)%list)
  = {| status := 200; payload := Analysis (results1 ++ results2)%list |}.
Proof.
  intros batch. subst batch. unfold analyze_files;
    cbn [a_owner a_repo a_file_paths a_max_size].
  destruct owner as [[|oc os]|]; try discriminate.
  destruct repo as [[|rc rs]|]; try discriminate.
  destruct (path_exists fs _); cbn [negb payload]; [|discriminate].
  intros H1 H2. injection H1 as <-. injection H2 as <-.
  now rewrite fold_left_app, analyze_loop_from_empty.
Qed.

(** plain text comes back as it is: bytes below 128 other than the carriage
    return are decoded to themselves *)
Lemma decoded_ascii (data : list byte) :
  Forall (fun b => (Byte.to_N b <? 128)%N = true /\ (Byte.to_N b =? 13)%N = false) data ->
  decoded data = map Byte.to_N data.
Proof.
  unfold decoded. induction 1 as [|b data [Hlow Hcr] Hrest IH]; [reflexivity|].
  cbn [decode_ignore map]. rewrite Hlow. cbn [translate_newlines].
  now rewrite Hcr, IH.
Qed.

(** X18. [get_file] returns a file of plain text unchanged: when every byte of
    the file it serves is below 128 and none is a carriage return, the
    content is the sequence of those bytes. *)
Theorem get_file_returns_ascii_verbatim (fs : node) (owner repo file_path : string)
    (data : list byte) :
  owner <> "" -> repo <> "" ->
  Spec.readable cwd fs (repo_path owner repo) file_path = Some data ->
  Forall (fun b => (Byte.to_N b <? 128)%N = true /\ (Byte.to_N b =? 13)%N = false) data ->
  get_file cwd fs file_path (Some owner) (Some repo)
  = {| status := 200; payload := FileContent file_path (map Byte.to_N data) |}.
Proof.
  intros Ho Hr Hread Hascii.
  destruct owner as [|oc os]; [contradiction|].
  destruct repo as [|rc rs]; [contradiction|].
  unfold Spec.readable in Hread. unfold get_file.
  destruct (inside_repo cwd _ _); cbn [andb negb] in *; [|discriminate].
  destruct (path_exists fs _); cbn [andb negb] in *; [|discriminate].
  destruct (isfile fs _); cbn [negb] in *; [|discriminate].
  destruct (open_file fs _) as [bytes|x]; [|discriminate].
  injection Hread as ->. unfold read_all. now rewrite decoded_ascii.
Qed.

End BatchesAndText.

Lemma batch_of_concatenation_witness :
  analyze_files "/app" roomy two_snapshots
    {| a_owner := Some "a"; a_repo := Some "b";
       a_file_paths := ["README.md"; "src"]; a_max_size := Some 2%Z |}
  = {| status := 200;
       payload := Analysis
         [{| e_path := "README.md"; e_content := [104%N; 101%N]; e_error := None |};
          {| e_path := "src"; e_content := []; e_error := Some "File not found" |}] |}.
Proof.
  apply (batch_of_concatenation "/app" roomy two_snapshots (Some "a") (Some "b")
           ["README.md"] ["src"] (Some 2%Z)
           [{| e_path := "README.md"; e_content := [104%N; 101%N]; e_error := None |}]
           [{| e_path := "src"; e_content := []; e_error := Some "File not found" |}]);
    reflexivity.
Defined.

Lemma get_file_returns_ascii_verbatim_witness :
  get_file "/app" two_snapshots "README.md" (Some "a") (Some "b")
  = {| status := 200;
       payload := FileContent "README.md" (map Byte.to_N (bytes "hello")) |}.
Proof.
  apply (get_file_returns_ascii_verbatim "/app" two_snapshots "a" "b" "README.md");
    try discriminate; try reflexivity.
  repeat constructor.
Defined.
